(** * Mail ingestion engine of [server_test.py]

    A shallow embedding of the SMTP [EmailHandler.handle_DATA] hook, of the
    SQLite table [emails] behind [save_email_to_db] / [inbox], and of the
    attachment directory, followed by the properties of the specification
    that concern them.

    Conventions.
    - A Python [str] is a list of Unicode code points ([str := list N]); a
      Python [bytes] object is a [list byte].
    - The standard library and third-party packages the program calls
      ([email], [codecs], [json], [sqlite3], [os], [time]) are not part of
      the repository.  Where their behaviour is fixed and small it is
      written out ([json.dumps] / [json.loads] on lists of strings,
      [posixpath.join], [bytes.__repr__], [time.strftime], the rowid rule of
      an [AUTOINCREMENT] column); where it is open-ended it is a variable of
      the section [Handler] (the message parser, the codec registry, the
      failure oracles of the file system and of the database).
    - The platform is POSIX with a UTF-8 file system encoding: paths are
      joined by [posixpath.join] and [open] refuses a path [os.fsencode]
      cannot encode.  The attachment directory exists (the module creates
      it on import) and the table exists ([init_db()] runs on import).
    - A path is a name, not a file: the operating system resolves it from
      the working directory, so that [attachments/./a.txt] and
      [attachments/a.txt] are one file, and [attachments/../emails.db] is
      the database itself.  The resolution is the variable [resolve] of
      the section [Handler]; the files of a world are kept by what their
      paths resolve to, and a write that lands on the database file
      replaces the table by what [sqlite3] reads from the bytes written
      (the variable [db_of_bytes]).
    - Header values are text: the case where [msg.get] hands back a
      [Header] object (raw 8-bit bytes in a header) is left out.
    - Console output ([print]) is not modelled. *)

From Stdlib Require Import NArith ZArith List Lia.
From Stdlib.Strings Require Import Ascii String Byte.
From stdpp Require Import base decidable option list gmap sorting.

Local Open Scope N_scope.

(** ** Text and bytes *)

Abbreviation str := (list N).
Abbreviation bytes := (list byte).

(** A literal of the source, as code points. *)
Definition lit (s : string) : str :=
  List.map N_of_ascii (list_ascii_of_string s).

(** Truthiness of a Python sequence: [if x:]. *)
Definition truthy {A} (l : list A) : bool :=
  match l with [] => false | _ => true end.

Definition str_eqb (a b : str) : bool := bool_decide (a = b).

Fixpoint startswith (p s : str) : bool :=
  match p, s with
  | [], _ => true
  | _ :: _, [] => false
  | a :: p', b :: s' => (a =? b) && startswith p' s'
  end.

(** [needle in hay] on strings: substring search. *)
Fixpoint contains (needle hay : str) : bool :=
  startswith needle hay ||
  match hay with
  | [] => false
  | _ :: hay' => contains needle hay'
  end.

(** [sep.join(items)]. *)
Fixpoint join (sep : str) (items : list str) : str :=
  match items with
  | [] => []
  | [x] => x
  | x :: rest => x ++ sep ++ join sep rest
  end.

(** [str.lower] on the ASCII letters; header names are compared with ASCII
    constants only, so nothing else matters for equality with them. *)
Definition lower_cp (c : N) : N :=
  if (65 <=? c) && (c <=? 90) then c + 32 else c.
Definition lower (s : str) : str := List.map lower_cp s.

Definition endswith_slash (s : str) : bool :=
  match last s with Some 47 => true | _ => false end.

(** [os.path.join(a, b)] with two arguments, POSIX flavour. *)
Definition path_join (a b : str) : str :=
  if startswith [47] b then b
  else if negb (truthy a) || endswith_slash a then a ++ b
  else a ++ [47] ++ b.

Definition hexdigit (n : N) : N :=
  if n <? 10 then 48 + n else 87 + n.

(** [str(payload)] for a [bytes] payload, i.e. [bytes.__repr__]. *)
Definition repr_quote (b : bytes) : N :=
  let cs := List.map Byte.to_N b in
  if existsb (N.eqb 39) cs && negb (existsb (N.eqb 34) cs) then 34 else 39.

Definition repr_byte (quote c : N) : str :=
  if (c =? quote) || (c =? 92) then [92; c]
  else if c =? 9 then [92; 116]
  else if c =? 10 then [92; 110]
  else if c =? 13 then [92; 114]
  else if (c <? 32) || (127 <=? c) then [92; 120; hexdigit (c / 16); hexdigit (c mod 16)]
  else [c].

Definition bytes_repr (b : bytes) : str :=
  let q := repr_quote b in
  [98; q] ++ List.flat_map (fun x => repr_byte q (Byte.to_N x)) b ++ [q].


(** ** [json.dumps] and [json.loads] on lists of strings

    [json.dumps] is called with its defaults ([ensure_ascii=True], item
    separator [", "]).  [json_loads] is [json.loads] restricted to documents
    that are arrays of strings: [None] stands for every other outcome (a
    [JSONDecodeError], or a value of another shape). *)

Definition hex4 (n : N) : str :=
  [hexdigit (n / 4096 mod 16); hexdigit (n / 256 mod 16);
   hexdigit (n / 16 mod 16); hexdigit (n mod 16)].

Definition u_escape (n : N) : str := [92; 117] ++ hex4 n.

(** One character through [ESCAPE_ASCII] / [ESCAPE_DCT]. *)
Definition json_escape (c : N) : str :=
  if c =? 92 then [92; 92]
  else if c =? 34 then [92; 34]
  else if (32 <=? c) && (c <=? 126) then [c]
  else if c =? 8 then [92; 98]
  else if c =? 12 then [92; 102]
  else if c =? 10 then [92; 110]
  else if c =? 13 then [92; 114]
  else if c =? 9 then [92; 116]
  else if c <? 65536 then u_escape c
  else
    let n := c - 65536 in
    u_escape (N.lor 55296 (N.land (N.shiftr n 10) 1023))
    ++ u_escape (N.lor 56320 (N.land n 1023)).

Definition encode_basestring_ascii (s : str) : str :=
  [34] ++ List.flat_map json_escape s ++ [34].

Definition json_dumps (l : list str) : str :=
  [91] ++ join [44; 32] (List.map encode_basestring_ascii l) ++ [93].

Definition hexval (c : N) : option N :=
  if (48 <=? c) && (c <=? 57) then Some (c - 48)
  else if (97 <=? c) && (c <=? 102) then Some (c - 87)
  else if (65 <=? c) && (c <=? 70) then Some (c - 55)
  else None.

Definition hex4_value (a b c d : N) : option N :=
  match hexval a, hexval b, hexval c, hexval d with
  | Some x, Some y, Some z, Some t => Some (x * 4096 + y * 256 + z * 16 + t)
  | _, _, _, _ => None
  end.

(** The [BACKSLASH] table of the decoder. *)
Definition backslash (e : N) : option N :=
  if e =? 34 then Some 34
  else if e =? 92 then Some 92
  else if e =? 47 then Some 47
  else if e =? 98 then Some 8
  else if e =? 102 then Some 12
  else if e =? 110 then Some 10
  else if e =? 114 then Some 13
  else if e =? 116 then Some 9
  else None.

Definition is_high_surrogate (c : N) : bool := (55296 <=? c) && (c <=? 56319).
Definition is_low_surrogate (c : N) : bool := (56320 <=? c) && (c <=? 57343).

Definition push (c : N) (r : option (str * str)) : option (str * str) :=
  match r with
  | Some (v, rest) => Some (c :: v, rest)
  | None => None
  end.

(** [scanstring] in strict mode, entered just after the opening quote; it
    returns the decoded string and the input after the closing quote. *)
Fixpoint scanstring (s : str) : option (str * str) :=
  match s with
  | [] => None
  | c :: s1 =>
    if c =? 34 then Some ([], s1)
    else if c =? 92 then
      match s1 with
      | [] => None
      | e :: s2 =>
        if e =? 117 then
          match s2 with
          | h1 :: h2 :: h3 :: h4 :: r =>
            match hex4_value h1 h2 h3 h4 with
            | None => None
            | Some uni =>
              if is_high_surrogate uni then
                match r with
                | b :: u :: r1 =>
                  if (b =? 92) && (u =? 117) then
                    match r1 with
                    | g1 :: g2 :: g3 :: g4 :: r2 =>
                      match hex4_value g1 g2 g3 g4 with
                      | None => None
                      | Some uni2 =>
                        if is_low_surrogate uni2 then
                          push (65536 + N.lor (N.shiftl (uni - 55296) 10) (uni2 - 56320))
                               (scanstring r2)
                        else push uni (scanstring r)
                      end
                    | _ => None
                    end
                  else push uni (scanstring r)
                | _ => push uni (scanstring r)
                end
              else push uni (scanstring r)
            end
          | _ => None
          end
        else
          match backslash e with
          | Some ch => push ch (scanstring s2)
          | None => None
          end
      end
    else if c <? 32 then None
    else push c (scanstring s1)
  end.

Definition is_ws (c : N) : bool :=
  (c =? 32) || (c =? 9) || (c =? 10) || (c =? 13).

Fixpoint skip_ws (s : str) : str :=
  match s with
  | c :: s' => if is_ws c then skip_ws s' else s
  | [] => []
  end.

(** The loop of [JSONArray], entered at the first element; every pass
    consumes input, so the length of the input bounds the passes. *)
Fixpoint parse_elements (fuel : nat) (s : str) : option (list str * str) :=
  match fuel with
  | O => None
  | S fuel' =>
    match s with
    | c :: s1 =>
      if c =? 34 then
        match scanstring s1 with
        | Some (v, r) =>
          match skip_ws r with
          | d :: r' =>
            if d =? 93 then Some ([v], r')
            else if d =? 44 then
              match parse_elements fuel' (skip_ws r') with
              | Some (vs, r'') => Some (v :: vs, r'')
              | None => None
              end
            else None
          | [] => None
          end
        | None => None
        end
      else None
    | [] => None
    end
  end.

Definition json_loads (s : str) : option (list str) :=
  match skip_ws s with
  | c :: s1 =>
    if c =? 91 then
      let finish (vs : list str) (r : str) :=
        if truthy (skip_ws r) then None else Some vs in
      match skip_ws s1 with
      | d :: r =>
        if d =? 93 then finish [] r
        else
          match parse_elements (length (d :: r)) (d :: r) with
          | Some (vs, r') => finish vs r'
          | None => None
          end
      | [] => None
      end
    else None
  | [] => None
  end.

(** A string survives [json.dumps] then [json.loads] when its code points
    are valid and no high surrogate stands right before a low one (the
    decoder would merge the two escapes into one character). *)
Fixpoint json_safe (s : str) : bool :=
  match s with
  | [] => true
  | c :: s' =>
    (c <? 1114112)
    && negb (is_high_surrogate c
             && match s' with c2 :: _ => is_low_surrogate c2 | [] => false end)
    && json_safe s'
  end.

(** The input starts with a [\u] escape that [scanstring] would read as
    the second half of a surrogate pair, or fail on. *)
Definition low_escape_next (R : str) : bool :=
  match R with
  | b :: u :: R1 =>
    if (b =? 92) && (u =? 117) then
      match R1 with
      | g1 :: g2 :: g3 :: g4 :: _ =>
        match hex4_value g1 g2 g3 g4 with
        | Some v => is_low_surrogate v
        | None => true
        end
      | _ => true
      end
    else false
  | _ => false
  end.

(** ** [time.strftime("%Y-%m-%d %H:%M:%S")] *)

Record struct_time := {
  tm_year : N; tm_mon : N; tm_mday : N;
  tm_hour : N; tm_min : N; tm_sec : N }.

Fixpoint uint_digits (d : Decimal.uint) : str :=
  match d with
  | Decimal.Nil => []
  | Decimal.D0 d' => 48 :: uint_digits d'
  | Decimal.D1 d' => 49 :: uint_digits d'
  | Decimal.D2 d' => 50 :: uint_digits d'
  | Decimal.D3 d' => 51 :: uint_digits d'
  | Decimal.D4 d' => 52 :: uint_digits d'
  | Decimal.D5 d' => 53 :: uint_digits d'
  | Decimal.D6 d' => 54 :: uint_digits d'
  | Decimal.D7 d' => 55 :: uint_digits d'
  | Decimal.D8 d' => 56 :: uint_digits d'
  | Decimal.D9 d' => 57 :: uint_digits d'
  end.

Definition decimal (n : N) : str := uint_digits (N.to_uint n).

(** [%m], [%d], [%H], [%M], [%S]: two digits, zero padded. *)
Definition pad2 (n : N) : str :=
  if n <? 10 then 48 :: decimal n else decimal n.

Definition strftime_Ymd_HMS (t : struct_time) : str :=
  decimal (tm_year t) ++ [45] ++ pad2 (tm_mon t) ++ [45] ++ pad2 (tm_mday t)
  ++ [32] ++ pad2 (tm_hour t) ++ [58] ++ pad2 (tm_min t) ++ [58] ++ pad2 (tm_sec t).

(** ** Three codecs of the Python registry, with [errors="replace"]

    The handler is stated over an arbitrary codec registry; this fragment
    serves the concrete runs.  It answers like CPython on the names it
    lists and on names CPython does not know. *)

Definition REPLACEMENT : N := 65533.

Definition ascii_decode_replace (b : bytes) : str :=
  List.map (fun x => let c := Byte.to_N x in if c <? 128 then c else REPLACEMENT) b.

Definition latin1_decode (b : bytes) : str := List.map Byte.to_N b.

Definition is_cont (b : N) : bool := (128 <=? b) && (b <=? 191).

(** Range of the second byte after a three- or four-byte lead. *)
Definition second_ok (b0 b1 : N) : bool :=
  if b0 =? 224 then (160 <=? b1) && (b1 <=? 191)
  else if b0 =? 237 then (128 <=? b1) && (b1 <=? 159)
  else if b0 =? 240 then (144 <=? b1) && (b1 <=? 191)
  else if b0 =? 244 then (128 <=? b1) && (b1 <=? 143)
  else is_cont b1.

(** UTF-8 with one U+FFFD per maximal ill-formed prefix. *)
Fixpoint utf8_decode_replace (s : list N) : str :=
  match s with
  | [] => []
  | b0 :: r =>
    if b0 <? 128 then b0 :: utf8_decode_replace r
    else if (194 <=? b0) && (b0 <=? 223) then
      match r with
      | b1 :: r1 =>
        if is_cont b1
        then (N.land b0 31 * 64 + N.land b1 63) :: utf8_decode_replace r1
        else REPLACEMENT :: utf8_decode_replace r
      | [] => [REPLACEMENT]
      end
    else if (224 <=? b0) && (b0 <=? 239) then
      match r with
      | b1 :: r1 =>
        if second_ok b0 b1 then
          match r1 with
          | b2 :: r2 =>
            if is_cont b2
            then (N.land b0 15 * 4096 + N.land b1 63 * 64 + N.land b2 63)
                 :: utf8_decode_replace r2
            else REPLACEMENT :: utf8_decode_replace r1
          | [] => [REPLACEMENT]
          end
        else REPLACEMENT :: utf8_decode_replace r
      | [] => [REPLACEMENT]
      end
    else if (240 <=? b0) && (b0 <=? 244) then
      match r with
      | b1 :: r1 =>
        if second_ok b0 b1 then
          match r1 with
          | b2 :: r2 =>
            if is_cont b2 then
              match r2 with
              | b3 :: r3 =>
                if is_cont b3
                then (N.land b0 7 * 262144 + N.land b1 63 * 4096
                      + N.land b2 63 * 64 + N.land b3 63)
                     :: utf8_decode_replace r3
                else REPLACEMENT :: utf8_decode_replace r2
              | [] => [REPLACEMENT]
              end
            else REPLACEMENT :: utf8_decode_replace r1
          | [] => [REPLACEMENT]
          end
        else REPLACEMENT :: utf8_decode_replace r
      | [] => [REPLACEMENT]
      end
    else REPLACEMENT :: utf8_decode_replace r
  end.

Definition python_decode (encoding : str) (b : bytes) : option str :=
  let name := lower encoding in
  if str_eqb name (lit "utf-8") || str_eqb name (lit "utf8")
  then Some (utf8_decode_replace (List.map Byte.to_N b))
  else if str_eqb name (lit "us-ascii") || str_eqb name (lit "ascii")
  then Some (ascii_decode_replace b)
  else if str_eqb name (lit "iso-8859-1") || str_eqb name (lit "latin-1")
          || str_eqb name (lit "latin1")
  then Some (latin1_decode b)
  else None.

(** ** Parsed messages

    A message is described by what the accessors of [email.message.Message]
    return on it.  A [Container] holds sub-messages ([is_multipart()] is
    true: [multipart/*] with its parts, [message/rfc822] with the enclosed
    message); a [Leaf] holds a body, already through its transfer decoding
    ([get_payload(decode=True)]). *)

Record part_info := {
  headers : list (str * str);
  content_maintype : str;
  filename : option str;
  content_charset : option str }.

#[warnings="-register-all"]
Inductive message :=
| Leaf (i : part_info) (payload : option bytes)
| Container (i : part_info) (subparts : list message).

Definition info (m : message) : part_info :=
  match m with Leaf i _ => i | Container i _ => i end.

Definition is_multipart (m : message) : bool :=
  match m with Leaf _ _ => false | Container _ _ => true end.

Fixpoint header_lookup (name : str) (hs : list (str * str)) : option str :=
  match hs with
  | [] => None
  | (k, v) :: hs' => if str_eqb (lower k) name then Some v else header_lookup name hs'
  end.

(** [msg.get(name, failobj)]: first field of that name, case-insensitively. *)
Definition get (m : message) (name failobj : str) : str :=
  match header_lookup (lower name) (headers (info m)) with
  | Some v => v
  | None => failobj
  end.

Definition get_content_maintype (m : message) : str := content_maintype (info m).
Definition get_filename (m : message) : option str := filename (info m).
Definition get_content_charset (m : message) : option str := content_charset (info m).

(** [get_payload(decode=True)]: [None] on a container. *)
Definition get_payload_decode (m : message) : option bytes :=
  match m with Leaf _ p => p | Container _ _ => None end.

(** [msg.walk()]: the message, then its sub-messages, depth first. *)
Fixpoint walk (m : message) : list message :=
  match m with
  | Leaf _ _ => [m]
  | Container _ subparts => m :: List.flat_map walk subparts
  end.

Record Envelope := {
  content : bytes;
  mail_from : str;
  rcpt_tos : list str }.

(** ** The table [emails] *)

Record row := {
  id : Z;
  sender : str;
  recipients : str;
  subject : str;
  body : str;
  date : str;
  attachments : str }.

(** The rows in insertion order, and the counter SQLite keeps for an
    [AUTOINCREMENT] column (the largest rowid ever handed out). *)
Record table := {
  rows : list row;
  sqlite_sequence : Z }.

Definition empty_table : table := {| rows := []; sqlite_sequence := 0 |}.

(** [init_db]: [CREATE TABLE IF NOT EXISTS] on a database file that may
    already hold the table. *)
Definition init_db (db : option table) : table :=
  match db with
  | Some t => t
  | None => empty_table
  end.

Definition MAX_ROWID : Z := 9223372036854775807.

Definition max_rowid (t : table) : Z :=
  fold_right Z.max (sqlite_sequence t) (List.map id (rows t)).

(** [INSERT INTO emails (sender, recipients, subject, body, date,
    attachments) VALUES (?, ?, ?, ?, ?, ?)]: the new rowid is one more than
    the largest ever used; [None] is SQLITE_FULL. *)
Definition insert_row (t : table)
    (sender recipients subject body date attachments : str)
    : option (Z * table) :=
  let last := max_rowid t in
  if (last <? MAX_ROWID)%Z then
    let i := (last + 1)%Z in
    Some (i, {| rows := rows t ++
                  [{| id := i; sender := sender; recipients := recipients;
                      subject := subject; body := body; date := date;
                      attachments := attachments |}];
                sqlite_sequence := i |})
  else None.

Definition id_desc (r1 r2 : row) : Prop := (id r2 <= id r1)%Z.

#[global] Instance id_desc_dec (r1 r2 : row) : Decision (id_desc r1 r2).
Proof. unfold id_desc. apply _. Defined.

(** [SELECT ... FROM emails ORDER BY id DESC]. *)
Definition select_order_by_id_desc (t : table) : list row :=
  merge_sort id_desc (rows t).

(** ** The world the handler acts on

    [files] holds the content of every regular file but the database,
    under what the paths of the file resolve to; [emails] is the table in
    the database file [emails.db]; [localtime] is the clock. *)

Record world := {
  files : gmap (list N) (list byte);
  emails : table;
  localtime : struct_time }.

Inductive exn :=
| OSError
| TypeError
| ValueError
| UnicodeEncodeError
| sqlite3_Error.

Inductive result (A : Type) :=
| Ok (a : A)
| Raise (e : exn).
Arguments Ok {A} a.
Arguments Raise {A} e.

Definition io (A : Type) : Type := world -> result A * world.

Definition ret {A} (a : A) : io A := fun w => (Ok a, w).

Definition bind {A B} (m : io A) (k : A -> io B) : io B :=
  fun w =>
    match m w with
    | (Ok a, w') => k a w'
    | (Raise e, w') => (Raise e, w')
    end.

Notation "x <- m ;; k" := (bind m (fun x => k))
  (at level 100, m at next level, right associativity).
Notation "m ;;; k" := (bind m (fun _ => k))
  (at level 100, right associativity).

(** [os.fsencode] succeeds on the path: UTF-8 with [surrogateescape], which
    lets through the escapes U+DC80..U+DCFF and no other surrogate. *)
Definition fs_char_ok (c : N) : bool :=
  (c <? 55296) || ((56448 <=? c) && (c <=? 56575))
  || ((57344 <=? c) && (c <? 1114112)).
Definition fs_encodable (path : str) : bool := forallb fs_char_ok path.
Definition has_nul (path : str) : bool := existsb (N.eqb 0) path.

(** A text value SQLite can bind: it encodes to UTF-8. *)
Definition utf8_char_ok (c : N) : bool :=
  (c <? 55296) || ((57344 <=? c) && (c <? 1114112)).
Definition bindable (s : str) : bool := forallb utf8_char_ok s.

Definition DB_FILE : str := lit "emails.db".
Definition ATTACHMENTS_DIR : str := lit "attachments".

Definition ACCEPTED : str := lit "250 Message accepted for delivery".
Definition REJECTED : str := lit "550 Error".

Definition set_files (f : gmap (list N) (list byte)) (w : world) : world :=
  {| files := f; emails := emails w; localtime := localtime w |}.

Definition set_emails (t : table) (w : world) : world :=
  {| files := files w; emails := t; localtime := localtime w |}.

Definition set_localtime (now : struct_time) (w : world) : world :=
  {| files := files w; emails := emails w; localtime := now |}.

(** The values one call of [save_email_to_db] receives. *)
Record ParsedEmail := {
  p_sender : str;
  p_recipients : str;
  p_subject : str;
  p_body : str;
  p_date : str;
  p_attachments : list str }.

(** The row that stores [p] under rowid [i]. *)
Definition record_of (p : ParsedEmail) (i : Z) : row :=
  {| id := i; sender := p_sender p; recipients := p_recipients p;
     subject := p_subject p; body := p_body p; date := p_date p;
     attachments := json_dumps (p_attachments p) |}.

Definition id_lt (r1 r2 : row) : Prop := (id r1 < id r2)%Z.

Definition ascii_only (s : str) : Prop := Forall (fun c => c < 128) s.

(** A reply that turns the message down: a 4xx or 5xx status. *)
Definition is_rejection (reply : str) : bool :=
  startswith [52] reply || startswith [53] reply.

(** ** The handler *)

Section Handler.

(** [email.message_from_bytes]; [None] when it raises. *)
Variable message_from_bytes : list byte -> option message.
(** [payload.decode(encoding, errors="replace")]; [None] when it raises
    (an unknown encoding, for one). *)
Variable decode : list N -> list byte -> option (list N).
(** The file a path names, as the operating system resolves it from the
    working directory: two paths with one resolution are one file. *)
Variable resolve : list N -> list N.
(** The table [sqlite3] finds in a database file that holds these bytes.
    Where the bytes are no database with a table [emails], every
    statement fails, which is for [sqlite_fails] to tell. *)
Variable db_of_bytes : list byte -> table.
(** [open(path, "wb")] fails in the operating system. *)
Variable open_fails : world -> list N -> bool.
(** [sqlite3] fails in [connect], [execute] or [commit]. *)
Variable sqlite_fails : world -> bool.

(** The path leads to the database file [emails.db]. *)
Definition is_database (filepath : str) : bool :=
  bool_decide (resolve filepath = resolve DB_FILE).

(** The disk once the file [filepath] names holds the bytes [b]: the
    file is replaced, and when it is the database file, so is the
    table. *)
Definition store (filepath : str) (b : bytes) (w : world) : world :=
  if is_database filepath then set_emails (db_of_bytes b) w
  else set_files (<[resolve filepath := b]> (files w)) w.

(** The file [filepath] names holds the bytes [b]. *)
Definition file_holds (w : world) (filepath : str) (b : bytes) : Prop :=
  if is_database filepath then emails w = db_of_bytes b
  else files w !! resolve filepath = Some b.

(** [open(filepath, "wb")]: creates or truncates the file. *)
Definition open_wb (filepath : str) : io unit := fun w =>
  if negb (fs_encodable filepath) then (Raise UnicodeEncodeError, w)
  else if has_nul filepath then (Raise ValueError, w)
  else if open_fails w filepath then (Raise OSError, w)
  else (Ok tt, store filepath [] w).

(** [f.write(data)] on the file just opened, and the close of [with]. *)
Definition write (filepath : str) (data : option bytes) : io unit := fun w =>
  match data with
  | Some b => (Ok tt, store filepath b w)
  | None => (Raise TypeError, w)
  end.

Definition save_email_to_db
    (sender recipients subject body date_str : str) (attachments : list str)
    : io unit := fun w =>
  let attachments_json := json_dumps attachments in
  if sqlite_fails w then (Raise sqlite3_Error, w)
  else if negb (forallb bindable
                  [sender; recipients; subject; body; date_str; attachments_json])
  then (Raise UnicodeEncodeError, w)
  else
    match insert_row (emails w) sender recipients subject body date_str
            attachments_json with
    | Some (_, t) => (Ok tt, set_emails t w)
    | None => (Raise sqlite3_Error, w)
    end.

(** [time.strftime("%Y-%m-%d %H:%M:%S")]. *)
Definition strftime_now : io str := fun w =>
  (Ok (strftime_Ymd_HMS (localtime w)), w).

(** The text a body part contributes:
    [payload.decode(charset or "utf-8", errors="replace")], and
    [str(payload)] when that raises. *)
Definition decode_payload (part : message) (payload : bytes) : str :=
  let charset :=
    match get_content_charset part with
    | Some c => if truthy c then c else lit "utf-8"
    | None => lit "utf-8"
    end in
  match decode charset payload with
  | Some text => text
  | None => bytes_repr payload
  end.

(** One pass of [for part in msg.walk()]. *)
Definition walk_step (part : message) (body : str) (attachments : list str)
    : io (str * list str) :=
  let content_disposition := get part (lit "Content-Disposition") [] in
  if str_eqb (get_content_maintype part) (lit "multipart") then
    ret (body, attachments)
  else if contains (lit "attachment") content_disposition then
    match get_filename part with
    | Some filename =>
      if truthy filename then
        let filepath := path_join ATTACHMENTS_DIR filename in
        open_wb filepath ;;;
        write filepath (get_payload_decode part) ;;;
        ret (body, attachments ++ [filepath])
      else ret (body, attachments)
    | None => ret (body, attachments)
    end
  else
    match get_payload_decode part with
    | Some payload =>
      if truthy payload
      then ret (body ++ decode_payload part payload, attachments)
      else ret (body, attachments)
    | None => ret (body, attachments)
    end.

Fixpoint walk_loop (parts : list message) (body : str) (attachments : list str)
    : io (str * list str) :=
  match parts with
  | [] => ret (body, attachments)
  | part :: parts' =>
    acc <- walk_step part body attachments ;;
    walk_loop parts' (fst acc) (snd acc)
  end.

Definition handle_DATA (envelope : Envelope) : io str :=
  match message_from_bytes (content envelope) with
  | None => ret REJECTED
  | Some msg =>
    let sender := get msg (lit "From") (mail_from envelope) in
    let recipients := get msg (lit "To") (join (lit ", ") (rcpt_tos envelope)) in
    let subject := get msg (lit "Subject") (lit "(No Subject)") in
    now <- strftime_now ;;
    let date_str := get msg (lit "Date") now in
    acc <-
      (if is_multipart msg then walk_loop (walk msg) [] []
       else
         match get_payload_decode msg with
         | Some payload =>
           if truthy payload then ret (decode_payload msg payload, [])
           else ret ([], [])
         | None => ret ([], [])
         end) ;;
    save_email_to_db sender recipients subject (fst acc) date_str (snd acc) ;;;
    ret ACCEPTED
  end.

(** *** What a message amounts to

    The classification the loop applies to the parts of [msg.walk()],
    and the body and attachment list it accumulates. *)

Definition is_container_part (part : message) : bool :=
  str_eqb (get_content_maintype part) (lit "multipart").

Definition has_attachment_disposition (part : message) : bool :=
  contains (lit "attachment") (get part (lit "Content-Disposition") []).

Definition declares_filename (part : message) : bool :=
  match get_filename part with
  | Some filename => truthy filename
  | None => false
  end.

Definition is_attachment_part (part : message) : bool :=
  negb (is_container_part part) && has_attachment_disposition part
  && declares_filename part.

Definition is_body_part (part : message) : bool :=
  negb (is_container_part part) && negb (has_attachment_disposition part).

Definition attachment_path (part : message) : str :=
  path_join ATTACHMENTS_DIR (default [] (get_filename part)).

Definition part_text (part : message) : str :=
  match get_payload_decode part with
  | Some payload => if truthy payload then decode_payload part payload else []
  | None => []
  end.

Definition attachment_parts (msg : message) : list message :=
  if is_multipart msg then List.filter is_attachment_part (walk msg) else [].

Definition message_attachments (msg : message) : list str :=
  List.map attachment_path (attachment_parts msg).

Definition message_body (msg : message) : str :=
  if is_multipart msg
  then List.concat (List.map part_text (List.filter is_body_part (walk msg)))
  else part_text msg.

(** The text the loop gathers from a list of parts. *)
Definition walk_body (parts : list message) : str :=
  List.concat (List.map part_text (List.filter is_body_part parts)).

(** The disk after the attachment parts were written, in order. *)
Definition write_all (parts : list message) (w : world) : world :=
  fold_left
    (fun w part => store (attachment_path part) (default [] (get_payload_decode part)) w)
    parts w.

(** No attachment of [msg] lands on the database file. *)
Definition spares_database (msg : message) : bool :=
  forallb (fun part => negb (is_database (attachment_path part)))
    (attachment_parts msg).

(** The worlds that writes through the given paths lead to. *)
Inductive reached (paths : list str) (w : world) : world -> Prop :=
| reached_refl : reached paths w w
| reached_store w1 p b :
    reached paths w w1 -> p ∈ paths -> reached paths w (store p b w1).

(** The row [save_email_to_db] is asked to add for [msg]. *)
Definition message_record (envelope : Envelope) (msg : message) (w : world) (i : Z)
    : row :=
  {| id := i;
     sender := get msg (lit "From") (mail_from envelope);
     recipients := get msg (lit "To") (join (lit ", ") (rcpt_tos envelope));
     subject := get msg (lit "Subject") (lit "(No Subject)");
     body := message_body msg;
     date := get msg (lit "Date") (strftime_Ymd_HMS (localtime w));
     attachments := json_dumps (message_attachments msg) |}.

(** An attachment part the file system can take: the path encodes, has
    no NUL, and there are bytes to write. *)
Definition writable (part : message) : bool :=
  fs_encodable (attachment_path part) && negb (has_nul (attachment_path part))
  && match get_payload_decode part with Some _ => true | None => false end.

(** Nothing in [msg] itself stands in the way of storing it in [w]: the
    attachments can be written, the values can be bound, and the table,
    as it is once the attachments are written, has a rowid left. *)
Definition deliverable (envelope : Envelope) (msg : message) (w : world) : bool :=
  let r := message_record envelope msg w 0 in
  forallb writable (attachment_parts msg)
  && forallb bindable [sender r; recipients r; subject r; body r; date r]
  && (max_rowid (emails (write_all (attachment_parts msg) w)) <? MAX_ROWID)%Z.


(** The part of [handle_DATA] between the headers and the insert: the
    body text and the attachment list of [msg]. *)
Definition extract (msg : message) : io (str * list str) :=
  if is_multipart msg then walk_loop (walk msg) [] []
  else
    match get_payload_decode msg with
    | Some payload =>
      if truthy payload then ret (decode_payload msg payload, [])
      else ret ([], [])
    | None => ret ([], [])
    end.

(** The world once [msg] has been stored: the attachments are written,
    then the row is inserted. *)
Definition delivered (envelope : Envelope) (msg : message) (w : world) : world :=
  let w1 := write_all (attachment_parts msg) w in
  let i := (max_rowid (emails w1) + 1)%Z in
  {| files := files w1;
     emails := {| rows := rows (emails w1) ++ [message_record envelope msg w i];
                  sqlite_sequence := i |};
     localtime := localtime w |}.


(** *** Runs of [save_email_to_db] *)

Definition append (p : ParsedEmail) : io unit :=
  save_email_to_db (p_sender p) (p_recipients p) (p_subject p) (p_body p)
    (p_date p) (p_attachments p).

Fixpoint append_all (ps : list ParsedEmail) : io unit :=
  match ps with
  | [] => ret tt
  | p :: ps' => append p ;;; append_all ps'
  end.

End Handler.

(** ** The read path of [inbox] *)

Record email_view := {
  v_sender : str;
  v_recipients : str;
  v_subject : str;
  v_body : str;
  v_date : str;
  v_attachments : list str }.

(** [json.loads(attachments_json) if attachments_json else []]. *)
Definition load_attachments (attachments_json : str) : option (list str) :=
  if truthy attachments_json then json_loads attachments_json else Some [].

Definition view_row (r : row) : option email_view :=
  match load_attachments (attachments r) with
  | Some l =>
    Some {| v_sender := sender r; v_recipients := recipients r;
            v_subject := subject r; v_body := body r; v_date := date r;
            v_attachments := l |}
  | None => None
  end.

(** The list [emails] handed to the template; [None] when [json.loads]
    raises on some row. *)
Fixpoint views (rs : list row) : option (list email_view) :=
  match rs with
  | [] => Some []
  | r :: rs' =>
    match view_row r, views rs' with
    | Some v, Some vs => Some (v :: vs)
    | _, _ => None
    end
  end.

Definition inbox (w : world) : option (list email_view) :=
  views (select_order_by_id_desc (emails w)).

(** ** The specification's wording, where it differs from the code *)

Section Wording.

Variable decode : list N -> list byte -> option (list N).

(** Every leaf that is not an attachment is body text. *)
Definition spec_is_body_part (part : message) : bool :=
  negb (is_container_part part) && negb (is_attachment_part part).

Definition spec_message_body (msg : message) : str :=
  if is_multipart msg
  then List.concat (List.map (part_text decode)
                      (List.filter spec_is_body_part (walk msg)))
  else part_text decode msg.

(** The declared character set, and UTF-8 with replacement when it is
    absent or when decoding with it fails. *)
Definition spec_decode_payload (part : message) (payload : bytes) : str :=
  let utf8 := utf8_decode_replace (List.map Byte.to_N payload) in
  match get_content_charset part with
  | Some c =>
    if truthy c then
      match decode c payload with
      | Some text => text
      | None => utf8
      end
    else utf8
  | None => utf8
  end.

End Wording.

(** ** Concrete messages and worlds *)

Definition no_open_fault : world -> list N -> bool := fun _ _ => false.
Definition no_sqlite_fault : world -> bool := fun _ => false.

(** [path.split("/")]. *)
Fixpoint split_slash (path cur : str) : list str :=
  match path with
  | [] => [cur]
  | c :: path' =>
    if c =? 47 then cur :: split_slash path' [] else split_slash path' (cur ++ [c])
  end.

Definition norm_step (acc : list str) (comp : str) : list str :=
  if str_eqb comp [] || str_eqb comp (lit ".") then acc
  else if str_eqb comp (lit "..") then removelast acc
  else acc ++ [comp].

Definition ex_cwd : str := lit "/srv/mail".

(** Path resolution on a file system without links, from the working
    directory [/srv/mail]: a relative path is taken from there, empty and
    "." components are dropped, and ".." drops the component before it. *)
Definition ex_resolve (path : str) : str :=
  let absolute :=
    if startswith [47] path then path else ex_cwd ++ [47] ++ path in
  [47] ++ join [47] (fold_left norm_step (split_slash absolute []) []).

(** None of the messages below writes to the database file, so what
    [sqlite3] would read from attachment bytes is never asked for. *)
Definition ex_db_of_bytes : list byte -> table := fun _ => empty_table.

(** What [email.message_from_bytes] makes of bytes that begin with
    neither a header line nor an empty line: a [text/plain] message
    without header fields, the bytes being its body.  The parser records
    a defect and does not raise. *)
Definition headerless (raw : list byte) : message :=
  Leaf {| headers := []; content_maintype := lit "text";
          filename := None; content_charset := None |}
       (Some raw).

(** A parser given by its graph on a few inputs, each a label that stands
    for the raw text of the message listed with it.  Any other input is
    taken as it is, a word that begins with no header line, hence
    [headerless]: like [email.message_from_bytes], the parser raises on
    no input. *)
Fixpoint parse_table (tbl : list (list byte * message)) (raw : list byte)
    : option message :=
  match tbl with
  | [] => Some (headerless raw)
  | (k, m) :: tbl' =>
    if str_eqb (List.map Byte.to_N k) (List.map Byte.to_N raw) then Some m
    else parse_table tbl' raw
  end.

Definition header (k v : string) : list N * list N := (lit k, lit v).

Definition ex_clock : struct_time :=
  {| tm_year := 2024; tm_mon := 3; tm_mday := 9;
     tm_hour := 14; tm_min := 5; tm_sec := 7 |}.

Definition ex_world : world :=
  {| files := ∅; emails := init_db None; localtime := ex_clock |}.

Definition ex_envelope (raw : string) : Envelope :=
  {| content := list_byte_of_string raw;
     mail_from := lit "alice@example.org";
     rcpt_tos := [lit "bob@example.org"; lit "carol@example.org"] |}.

Definition ex_text (data : list byte) : message :=
  Leaf {| headers := [header "Content-Type" "text/plain"];
          content_maintype := lit "text";
          filename := None;
          content_charset := None |}
       (Some data).

Definition ex_text_in (charset : string) (data : list byte) : message :=
  Leaf {| headers := [header "Content-Type" "text/plain"];
          content_maintype := lit "text";
          filename := None;
          content_charset := Some (lit charset) |}
       (Some data).

Definition ex_attachment (name : string) (data : list byte) : message :=
  Leaf {| headers := [header "Content-Type" "application/octet-stream";
                      header "Content-Disposition" "attachment"];
          content_maintype := lit "application";
          filename := Some (lit name);
          content_charset := None |}
       (Some data).

(** A part marked as an attachment that names no file. *)
Definition ex_unnamed_attachment (data : list byte) : message :=
  Leaf {| headers := [header "Content-Type" "text/plain";
                      header "Content-Disposition" "attachment"];
          content_maintype := lit "text";
          filename := None;
          content_charset := None |}
       (Some data).

(** A forwarded message sent as an attachment: [message/rfc822] holds the
    enclosed message, so [get_payload(decode=True)] is [None] on it. *)
Definition ex_forwarded (name : string) (inner : message) : message :=
  Container {| headers := [header "Content-Type" "message/rfc822";
                           header "Content-Disposition" "attachment"];
               content_maintype := lit "message";
               filename := Some (lit name);
               content_charset := None |}
            [inner].

Definition ex_multipart (hs : list (list N * list N)) (parts : list message)
    : message :=
  Container {| headers := hs ++ [header "Content-Type" "multipart/mixed"];
               content_maintype := lit "multipart";
               filename := None;
               content_charset := None |}
            parts.

Definition ex_headers : list (list N * list N) :=
  [header "From" "dave@example.org"; header "To" "erin@example.org";
   header "Subject" "Report"; header "Date" "Sat, 09 Mar 2024 14:05:07 +0000"].

Definition ex_two_attachments : message :=
  ex_multipart ex_headers
    [ex_attachment "a.txt" (list_byte_of_string "AAA");
     ex_text (list_byte_of_string "hello");
     ex_attachment "b.bin" (list_byte_of_string "BBB")].

Definition ex_unnamed : message :=
  ex_multipart ex_headers [ex_unnamed_attachment (list_byte_of_string "hello")].

Definition ex_unknown_charset : message :=
  ex_text_in "x-unknown-charset" (list_byte_of_string "hi").

Definition ex_bad_ascii : message :=
  ex_text_in "us-ascii" [x48; xff; x69]%byte.

Definition ex_with_forward : message :=
  ex_multipart ex_headers
    [ex_text (list_byte_of_string "see attached");
     ex_forwarded "fwd.eml" (ex_text (list_byte_of_string "original"))].

Definition ex_report (data : string) : message :=
  ex_multipart ex_headers [ex_attachment "report.pdf" (list_byte_of_string data)].

Definition ex_bare : message :=
  Leaf {| headers := []; content_maintype := lit "text";
          filename := None; content_charset := None |}
       (Some []).

(** Two attachments and one text part, the second attachment being a
    forwarded message that encloses the text part. *)
Definition ex_two_with_forward : message :=
  ex_multipart ex_headers
    [ex_attachment "a.txt" (list_byte_of_string "AAA");
     ex_forwarded "fwd.eml" (ex_text (list_byte_of_string "original"))].

Definition ex_parser : list byte -> option message :=
  parse_table
    [(list_byte_of_string "two-attachments", ex_two_attachments);
     (list_byte_of_string "unnamed", ex_unnamed);
     (list_byte_of_string "unknown-charset", ex_unknown_charset);
     (list_byte_of_string "bad-ascii", ex_bad_ascii);
     (list_byte_of_string "with-forward", ex_with_forward);
     (list_byte_of_string "report-1", ex_report "first");
     (list_byte_of_string "report-2", ex_report "second");
     (list_byte_of_string "bare", ex_bare);
     (list_byte_of_string "two-with-forward", ex_two_with_forward)].

(** [handle_DATA] with that parser, the three codecs, and no fault. *)
Definition ex_handle (raw : string) : io str :=
  handle_DATA ex_parser python_decode ex_resolve ex_db_of_bytes
    no_open_fault no_sqlite_fault (ex_envelope raw).

Definition ex_parsed (subject : string) (paths : list (list N)) : ParsedEmail :=
  {| p_sender := lit "alice@example.org"; p_recipients := lit "bob@example.org";
     p_subject := lit subject; p_body := lit "text";
     p_date := lit "2024-03-09 14:05:07"; p_attachments := paths |}.

Definition ex_appends : list ParsedEmail :=
  [ex_parsed "first" []; ex_parsed "second" [lit "attachments/a.txt"]].

(** ** A session, and what the inbox shows of it *)

Definition is_accepted (r : result (list N)) : bool :=
  match r with
  | Ok reply => str_eqb reply ACCEPTED
  | Raise _ => false
  end.

Section Session.

Variable message_from_bytes : list byte -> option message.
Variable decode : list N -> list byte -> option (list N).
Variable resolve : list N -> list N.
Variable db_of_bytes : list byte -> table.
Variable open_fails : world -> list N -> bool.
Variable sqlite_fails : world -> bool.

(** The DATA commands of successive messages, each with the local time
    at which it arrives.  [handle_DATA] never awaits, so on the event
    loop of the server one call runs to its end before the next starts;
    an exception ends that call only. *)
Fixpoint deliver_all (arrivals : list (struct_time * Envelope)) (w : world)
    : list (result (list N)) * world :=
  match arrivals with
  | [] => ([], w)
  | (now, envelope) :: rest =>
    let (r, w1) :=
      handle_DATA message_from_bytes decode resolve db_of_bytes
        open_fails sqlite_fails envelope (set_localtime now w) in
    let (rs, w2) := deliver_all rest w1 in
    (r :: rs, w2)
  end.

(** No attachment of the session lands on the database file. *)
Definition session_spares_database (arrivals : list (struct_time * Envelope))
    : bool :=
  forallb
    (fun arrival =>
       match message_from_bytes (content (snd arrival)) with
       | Some msg => spares_database resolve msg
       | None => true
       end)
    arrivals.

(** The dictionary [inbox] builds from the row of [msg], stored at the
    local time [now]. *)
Definition message_view (envelope : Envelope) (msg : message) (now : struct_time)
    : email_view :=
  {| v_sender := get msg (lit "From") (mail_from envelope);
     v_recipients := get msg (lit "To") (join (lit ", ") (rcpt_tos envelope));
     v_subject := get msg (lit "Subject") (lit "(No Subject)");
     v_body := message_body decode msg;
     v_date := get msg (lit "Date") (strftime_Ymd_HMS now);
     v_attachments := List.map attachment_path (attachment_parts msg) |}.

(** The views of the messages of a session that were answered with 250. *)
Fixpoint accepted_views (arrivals : list (struct_time * Envelope))
    (outs : list (result (list N))) : list email_view :=
  match arrivals, outs with
  | (now, envelope) :: rest, r :: rs =>
    (if is_accepted r then
       match message_from_bytes (content envelope) with
       | Some msg => [message_view envelope msg now]
       | None => []
       end
     else [])
    ++ accepted_views rest rs
  | _, _ => []
  end.

End Session.

(** ** Basic authentication of the web application *)

(** [users = {"admin": "secret"}]. *)
Definition users : gmap (list N) (list N) := {[ lit "admin" := lit "secret" ]}.

(** [get_pw]: [users.get(username)] when [username in users], else [None]. *)
Definition get_pw (username : str) : option str :=
  if bool_decide (is_Some (users !! username)) then users !! username else None.

(** ** More concrete messages *)

(** A message that is a single part and is itself marked as an attachment. *)
Definition ex_single_attachment : message :=
  Leaf {| headers := [header "Subject" "A file";
                      header "Content-Type" "application/pdf";
                      header "Content-Disposition" "attachment"];
          content_maintype := lit "application";
          filename := Some (lit "doc.pdf");
          content_charset := None |}
       (Some (list_byte_of_string "PDF")).

(** An inline part whose file name happens to contain "attachment". *)
Definition ex_inline_named : message :=
  Leaf {| headers := [header "Content-Type" "text/plain";
                      header "Content-Disposition" "inline; filename=attachment.txt"];
          content_maintype := lit "text";
          filename := Some (lit "attachment.txt");
          content_charset := None |}
       (Some (list_byte_of_string "notes")).

Definition ex_absolute : message :=
  ex_multipart ex_headers
    [ex_attachment "/tmp/run.sh" (list_byte_of_string "echo")].

Definition ex_forward_between : message :=
  ex_multipart ex_headers
    [ex_attachment "a.txt" (list_byte_of_string "AAA");
     ex_forwarded "fwd.eml" (ex_text (list_byte_of_string "original"));
     ex_attachment "b.bin" (list_byte_of_string "BBB")].

Definition ex_twice : message :=
  ex_multipart ex_headers
    [ex_attachment "dup.txt" (list_byte_of_string "one");
     ex_text (list_byte_of_string "see both");
     ex_attachment "dup.txt" (list_byte_of_string "two")].

(** Two names of one file. *)
Definition ex_aliased : message :=
  ex_multipart ex_headers
    [ex_attachment "a.txt" (list_byte_of_string "one");
     ex_attachment "./a.txt" (list_byte_of_string "two")].

Definition ex_inline : message :=
  ex_multipart ex_headers [ex_inline_named].

Definition ex_parser2 : list byte -> option message :=
  parse_table
    [(list_byte_of_string "two-attachments", ex_two_attachments);
     (list_byte_of_string "with-forward", ex_with_forward);
     (list_byte_of_string "unknown-charset", ex_unknown_charset);
     (list_byte_of_string "bare", ex_bare);
     (list_byte_of_string "single-attachment", ex_single_attachment);
     (list_byte_of_string "absolute", ex_absolute);
     (list_byte_of_string "forward-between", ex_forward_between);
     (list_byte_of_string "twice", ex_twice);
     (list_byte_of_string "aliased", ex_aliased);
     (list_byte_of_string "inline", ex_inline)].

(** A database that refuses every statement. *)
Definition sqlite_down : world -> bool := fun _ => true.

(** A file system that refuses every [open]. *)
Definition open_refused : world -> list N -> bool := fun _ _ => true.

Definition ex_handle2 (raw : string) : io (list N) :=
  handle_DATA ex_parser2 python_decode ex_resolve ex_db_of_bytes
    no_open_fault no_sqlite_fault (ex_envelope raw).

(** A world where an earlier attachment is on disk. *)
Definition ex_world_old : world :=
  set_files
    (<[ex_resolve (lit "attachments/old.txt") := list_byte_of_string "old"]> ∅)
    ex_world.

(** The clock, [n] minutes after [ex_clock]. *)
Definition ex_clock_after (n : N) : struct_time :=
  {| tm_year := 2024; tm_mon := 3; tm_mday := 9;
     tm_hour := 14; tm_min := 5 + n; tm_sec := 7 |}.

Definition ex_session : list (struct_time * Envelope) :=
  [(ex_clock, ex_envelope "two-attachments");
   (ex_clock_after 1, ex_envelope "garbage");
   (ex_clock_after 2, ex_envelope "with-forward");
   (ex_clock_after 3, ex_envelope "bare")].

(** * Properties *)

(** ** Sample evaluations *)

Example path_join_plain :
  path_join (lit "attachments") (lit "a.txt") = lit "attachments/a.txt".
Proof. reflexivity. Qed.

Example path_join_absolute :
  path_join (lit "attachments") (lit "/etc/x") = lit "/etc/x".
Proof. reflexivity. Qed.

Example bytes_repr_hi :
  bytes_repr (list_byte_of_string "hi") = lit "b'hi'".
Proof. reflexivity. Qed.

Example contains_attachment :
  contains (lit "attachment") (lit "attachment; filename=a.txt") = true
  /\ contains (lit "attachment") (lit "inline") = false
  /\ contains (lit "attachment") (lit "Attachment") = false.
Proof. repeat split. Qed.

(** Non-ASCII characters leave [json.dumps] as [\\u] escapes, a character
    beyond the basic plane as a surrogate pair. *)
Example json_dumps_two :
  json_dumps [lit "attachments/a.txt"; [233; 128512; 10]]
  = [91; 34] ++ lit "attachments/a.txt" ++ [34; 44; 32; 34]
    ++ lit "\u00e9\ud83d\ude00\n" ++ [34; 93].
Proof. vm_compute. reflexivity. Qed.

Example json_loads_two :
  json_loads (json_dumps [lit "attachments/a.txt"; [233; 128512; 10]; []])
  = Some [lit "attachments/a.txt"; [233; 128512; 10]; []]
  /\ json_loads (json_dumps []) = Some [].
Proof. vm_compute. split; reflexivity. Qed.

(** A high surrogate right before a low one does not survive: the decoder
    reads the two escapes as one character. *)
Example json_loads_pair_merges :
  json_loads (json_dumps [[55357; 56832]]) = Some [[128512]].
Proof. vm_compute. reflexivity. Qed.

Example utf8_decode_replace_mixed :
  utf8_decode_replace
    [226; 130; 172; 65; 226; 130; 66; 240; 159; 152; 128; 255; 226; 130]
  = [8364; 65; 65533; 66; 128512; 65533; 65533].
Proof. vm_compute. reflexivity. Qed.

Example strftime_ex_clock : strftime_Ymd_HMS ex_clock = lit "2024-03-09 14:05:07".
Proof. vm_compute. reflexivity. Qed.

Example ex_resolve_paths :
  ex_resolve (lit "attachments/a.txt") = lit "/srv/mail/attachments/a.txt"
  /\ ex_resolve (lit "attachments/./a.txt") = lit "/srv/mail/attachments/a.txt"
  /\ ex_resolve (lit "attachments/../emails.db") = ex_resolve DB_FILE
  /\ ex_resolve (lit "/tmp/run.sh") = lit "/tmp/run.sh".
Proof. vm_compute. repeat split. Qed.

(** The handler on a message with two attachments around a text part. *)
Example two_attachments_run :
  fst (ex_handle "two-attachments" ex_world) = Ok ACCEPTED
  /\ files (snd (ex_handle "two-attachments" ex_world))
       !! lit "/srv/mail/attachments/a.txt"
     = Some (list_byte_of_string "AAA")
  /\ List.map body (rows (emails (snd (ex_handle "two-attachments" ex_world))))
     = [lit "hello"].
Proof. vm_compute. repeat split. Qed.

(** Two names of one file: the later part is what the file holds, and
    the row lists both names. *)
Example aliased_run :
  fst (ex_handle2 "aliased" ex_world) = Ok ACCEPTED
  /\ files (snd (ex_handle2 "aliased" ex_world))
     = {[ lit "/srv/mail/attachments/a.txt" := list_byte_of_string "two" ]}
  /\ List.map attachments (rows (emails (snd (ex_handle2 "aliased" ex_world))))
     = [json_dumps [lit "attachments/a.txt"; lit "attachments/./a.txt"]].
Proof. vm_compute. repeat split. Qed.

(** Bytes that are no message in any sense are read as a body and
    stored. *)
Example garbage_run :
  fst (ex_handle "garbage" ex_world) = Ok ACCEPTED
  /\ List.map body (rows (emails (snd (ex_handle "garbage" ex_world))))
     = [lit "garbage"].
Proof. vm_compute. repeat split. Qed.

(** ** [json.loads] undoes [json.dumps] *)

(** Bits that do not overlap add up. *)
Lemma lor_high_low (a b k : N) : b < 2 ^ k -> N.lor (a * 2 ^ k) b = a * 2 ^ k + b.
Proof.
  intros Hb.
  assert (Hland : N.land (a * 2 ^ k) b = 0).
  { apply N.bits_inj. intros i. rewrite N.land_spec, N.bits_0.
    destruct (N.lt_ge_cases i k) as [Hlt | Hge].
    - rewrite N.mul_pow2_bits_low by exact Hlt. reflexivity.
    - destruct (N.eq_dec b 0) as [-> | Hnz].
      + rewrite N.bits_0. apply andb_false_r.
      + rewrite (N.bits_above_log2 b i); [apply andb_false_r |].
        apply N.lt_le_trans with k; [| exact Hge].
        apply N.log2_lt_pow2; lia. }
  rewrite <- N.lxor_lor by exact Hland.
  symmetry. apply N.add_nocarry_lxor. exact Hland.
Qed.

(** The decoder reads back the hexadecimal digits the encoder writes. *)
Lemma hexval_hexdigit (d : N) : d < 16 -> hexval (hexdigit d) = Some d.
Proof.
  intros Hd. unfold hexval, hexdigit.
  destruct (N.ltb_spec d 10).
  - replace ((48 <=? 48 + d) && (48 + d <=? 57)) with true.
    + f_equal. lia.
    + symmetry. apply andb_true_iff. split; apply N.leb_le; lia.
  - replace ((48 <=? 87 + d) && (87 + d <=? 57)) with false.
    + replace ((97 <=? 87 + d) && (87 + d <=? 102)) with true.
      * f_equal. lia.
      * symmetry. apply andb_true_iff. split; apply N.leb_le; lia.
    + symmetry. apply andb_false_iff. right. apply N.leb_gt. lia.
Qed.

Lemma hex4_value_hex4 (n : N) :
  n < 65536 ->
  hex4_value (hexdigit (n / 4096 mod 16)) (hexdigit (n / 256 mod 16))
             (hexdigit (n / 16 mod 16)) (hexdigit (n mod 16)) = Some n.
Proof.
  intros Hn. unfold hex4_value.
  rewrite !hexval_hexdigit by (apply N.mod_lt; lia).
  f_equal.
  pose proof (N.div_mod n 16 ltac:(lia)).
  pose proof (N.div_mod (n / 16) 16 ltac:(lia)).
  pose proof (N.div_mod (n / 16 / 16) 16 ltac:(lia)).
  rewrite !N.Div0.div_div in *.
  change (16 * 16) with 256 in *. change (256 * 16) with 4096 in *.
  assert (n / 4096 < 16) by (apply N.Div0.div_lt_upper_bound; lia).
  rewrite (N.mod_small (n / 4096) 16) in * by lia.
  lia.
Qed.

(** [scanstring] on an input that starts with a [\\u] escape. *)
Lemma scanstring_u (a b c d : N) (R : list N) :
  scanstring (92 :: 117 :: a :: b :: c :: d :: R) =
  match hex4_value a b c d with
  | None => None
  | Some uni =>
    if is_high_surrogate uni then
      match R with
      | b :: u :: r1 =>
        if (b =? 92) && (u =? 117) then
          match r1 with
          | g1 :: g2 :: g3 :: g4 :: r2 =>
            match hex4_value g1 g2 g3 g4 with
            | None => None
            | Some uni2 =>
              if is_low_surrogate uni2 then
                push (65536 + N.lor (N.shiftl (uni - 55296) 10) (uni2 - 56320))
                     (scanstring r2)
              else push uni (scanstring R)
            end
          | _ => None
          end
        else push uni (scanstring R)
      | _ => push uni (scanstring R)
      end
    else push uni (scanstring R)
  end.
Proof. reflexivity. Qed.

(** A [\\u] escape that is not merged with the escape after it. *)
Lemma scan_u_escape_alone (n : N) (R : list N) :
  n < 65536 -> (is_high_surrogate n = true -> low_escape_next R = false) ->
  scanstring (u_escape n ++ R) = push n (scanstring R).
Proof.
  intros Hn Hnext. unfold u_escape, hex4.
  cbn [app]. rewrite scanstring_u, hex4_value_hex4 by exact Hn.
  destruct (is_high_surrogate n); [| reflexivity].
  specialize (Hnext eq_refl).
  destruct R as [| b [| u R1]]; try reflexivity.
  cbn [low_escape_next] in Hnext.
  destruct ((b =? 92) && (u =? 117)); [| reflexivity].
  destruct R1 as [| g1 [| g2 [| g3 [| g4 r2]]]]; try discriminate.
  destruct (hex4_value g1 g2 g3 g4); [| discriminate].
  rewrite Hnext. reflexivity.
Qed.

(** The two escapes of a surrogate pair are read as one character. *)
Lemma scan_u_escape_pair (hi lo : N) (R : list N) :
  hi < 65536 -> lo < 65536 ->
  is_high_surrogate hi = true -> is_low_surrogate lo = true ->
  scanstring (u_escape hi ++ u_escape lo ++ R)
  = push (65536 + N.lor (N.shiftl (hi - 55296) 10) (lo - 56320)) (scanstring R).
Proof.
  intros Hhi Hlo Hh Hl. unfold u_escape, hex4.
  cbn [app]. rewrite scanstring_u, hex4_value_hex4 by exact Hhi.
  rewrite Hh. cbn [N.eqb Pos.eqb andb].
  rewrite hex4_value_hex4 by exact Hlo. rewrite Hl. reflexivity.
Qed.

(** The surrogate pair [json.dumps] writes for a character beyond the
    basic plane, and the character [scanstring] computes from it. *)
Lemma surrogate_pair_value (c : N) :
  65536 <= c -> c < 1114112 ->
  exists q r : N,
    q < 1024 /\ r < 1024
    /\ N.lor 55296 (N.land (N.shiftr (c - 65536) 10) 1023) = 55296 + q
    /\ N.lor 56320 (N.land (c - 65536) 1023) = 56320 + r
    /\ 65536 + N.lor (N.shiftl q 10) r = c.
Proof.
  intros Hc1 Hc2.
  assert (Hn : c - 65536 < 1048576) by lia.
  assert (Hc : c = 65536 + (c - 65536)) by lia.
  revert Hn Hc. generalize (c - 65536). intros n Hn Hc.
  assert (Hdm : n = 1024 * (n / 1024) + n mod 1024)
    by (apply N.div_mod; discriminate).
  assert (Hq : n / 1024 < 1024) by (apply N.Div0.div_lt_upper_bound; exact Hn).
  assert (Hr : n mod 1024 < 1024) by (apply N.mod_lt; discriminate).
  exists (n / 1024), (n mod 1024).
  split; [exact Hq |]. split; [exact Hr |].
  change 1023 with (N.ones 10).
  rewrite !N.land_ones, N.shiftr_div_pow2, N.shiftl_mul_pow2.
  change (2 ^ 10) with 1024.
  rewrite (N.mod_small (n / 1024)) by exact Hq.
  change 55296 with (54 * 1024). change 56320 with (55 * 1024).
  rewrite !(fun a b => lor_high_low a b 10 : b < 1024 -> _ = a * 1024 + b)
    by assumption.
  split; [reflexivity |]. split; [reflexivity |].
  revert Hdm. generalize (n / 1024) (n mod 1024). intros q r Hdm. lia.
Qed.

(** Case analysis on the comparisons that select an escape. *)
Ltac split_tests :=
  repeat match goal with
  | |- context [if ?a =? ?b then _ else _] =>
    destruct (N.eqb_spec a b); [subst |]
  | |- context [if ?a <? ?b then _ else _] =>
    destruct (N.ltb_spec a b)
  | |- context [if (?a <=? ?b) && (?c <=? ?d) then _ else _] =>
    destruct (N.leb_spec a b); destruct (N.leb_spec c d); cbn [andb]
  end.

Lemma scanstring_plain (c : N) (R : list N) :
  c <> 34 -> c <> 92 -> 32 <= c ->
  scanstring (c :: R) = push c (scanstring R).
Proof.
  intros H1 H2 H3. cbn [scanstring].
  destruct (N.eqb_spec c 34); [contradiction |].
  destruct (N.eqb_spec c 92); [contradiction |].
  destruct (N.ltb_spec c 32); [lia | reflexivity].
Qed.

Lemma scan_pair_escape (c : N) (R : list N) :
  65536 <= c -> c < 1114112 ->
  scanstring
    ((u_escape (N.lor 55296 (N.land (N.shiftr (c - 65536) 10) 1023))
      ++ u_escape (N.lor 56320 (N.land (c - 65536) 1023))) ++ R)
  = push c (scanstring R).
Proof.
  intros Hc1 Hc2.
  destruct (surrogate_pair_value c) as (q & r & Hq & Hr & Hhi & Hlo & Hval);
    [assumption .. |].
  rewrite Hhi, Hlo, <- app_assoc, scan_u_escape_pair.
  - rewrite (N.add_comm 55296), N.add_sub, (N.add_comm 56320), N.add_sub, Hval.
    reflexivity.
  - lia.
  - lia.
  - unfold is_high_surrogate. apply andb_true_iff; split; apply N.leb_le; lia.
  - unfold is_low_surrogate. apply andb_true_iff; split; apply N.leb_le; lia.
Qed.

(** [scanstring] reads the escape of one character as that character. *)
Lemma scan_escape (c : N) (R : list N) :
  c < 1114112 ->
  (is_high_surrogate c = true -> low_escape_next R = false) ->
  scanstring (json_escape c ++ R) = push c (scanstring R).
Proof.
  intros Hc Hnext. unfold json_escape.
  split_tests; try (exfalso; lia); try reflexivity;
    first [ apply scanstring_plain; assumption
          | apply scan_u_escape_alone; assumption
          | apply scan_pair_escape; assumption ].
Qed.

Lemma low_escape_next_quote (r : list N) : low_escape_next (34 :: r) = false.
Proof. destruct r; reflexivity. Qed.

Lemma low_escape_next_plain (c : N) (T : list N) :
  c <> 92 -> low_escape_next (c :: T) = false.
Proof.
  intros Hc. destruct T as [| u T]; [reflexivity |].
  cbn [low_escape_next].
  destruct (N.eqb_spec c 92); [contradiction | reflexivity].
Qed.

Lemma low_escape_next_u (n : N) (T : list N) :
  n < 65536 -> is_low_surrogate n = false ->
  low_escape_next (u_escape n ++ T) = false.
Proof.
  intros Hn Hlow. unfold u_escape, hex4.
  cbn [app low_escape_next N.eqb Pos.eqb andb].
  rewrite hex4_value_hex4 by assumption. exact Hlow.
Qed.

(** What [json.dumps] writes for a character that is not a low surrogate
    is never taken for the second half of a pair. *)
Lemma low_escape_next_escape (c : N) (T : list N) :
  c < 1114112 -> is_low_surrogate c = false ->
  low_escape_next (json_escape c ++ T) = false.
Proof.
  intros Hc Hlow. unfold json_escape.
  split_tests; try (exfalso; lia); try reflexivity;
    try (apply low_escape_next_plain; assumption);
    try (apply low_escape_next_u; assumption).
  destruct (surrogate_pair_value c) as (q & r & Hq & _ & Hhi & _ & _);
    [assumption .. |].
  rewrite Hhi, <- app_assoc. apply low_escape_next_u; [lia |].
  unfold is_low_surrogate. apply andb_false_iff. left. apply N.leb_gt. lia.
Qed.

(** [scanstring] inverts the escaping of a whole string. *)
Lemma scanstring_escaped (s r : list N) :
  json_safe s = true ->
  scanstring (List.flat_map json_escape s ++ 34 :: r) = Some (s, r).
Proof.
  induction s as [| c s IH]; intros Hs; [reflexivity |].
  cbn [json_safe] in Hs.
  apply andb_true_iff in Hs as [Hs Hs'].
  apply andb_true_iff in Hs as [Hc Hpair].
  apply N.ltb_lt in Hc.
  cbn [List.flat_map]. rewrite <- app_assoc.
  rewrite scan_escape.
  - rewrite IH by assumption. reflexivity.
  - assumption.
  - intros Hh. rewrite Hh in Hpair.
    destruct s as [| c2 s2]; [apply low_escape_next_quote |].
    cbn [List.flat_map]. rewrite <- app_assoc.
    cbn [json_safe] in Hs'.
    apply andb_true_iff in Hs' as [Hs' _].
    apply andb_true_iff in Hs' as [Hc2 _]. apply N.ltb_lt in Hc2.
    apply low_escape_next_escape; [exact Hc2 |].
    cbn [andb negb] in Hpair.
    destruct (is_low_surrogate c2); [discriminate | reflexivity].
Qed.

Lemma skip_ws_nonws (c : N) (s : list N) : is_ws c = false -> skip_ws (c :: s) = c :: s.
Proof. intros H. cbn [skip_ws]. rewrite H. reflexivity. Qed.

Lemma skip_ws_join_encoded (y : list N) (l : list (list N)) (r : list N) :
  skip_ws (join [44; 32] (List.map encode_basestring_ascii (y :: l)) ++ r)
  = join [44; 32] (List.map encode_basestring_ascii (y :: l)) ++ r.
Proof. destruct l; reflexivity. Qed.

(** The array loop reads back the elements [json.dumps] joined. *)
Lemma parse_elements_join (l : list (list N)) :
  forall (x : list N) (fuel : nat) (r : list N),
    json_safe x = true -> Forall (fun s => json_safe s = true) l ->
    (length l < fuel)%nat ->
    parse_elements fuel
      (join [44; 32] (List.map encode_basestring_ascii (x :: l)) ++ 93 :: r)
    = Some (x :: l, r).
Proof.
  induction l as [| y l IH]; intros x fuel r Hx Hl Hfuel;
    (destruct fuel as [| fuel]; [inversion Hfuel |]).
  - cbn [List.map join]. unfold encode_basestring_ascii.
    cbn [app parse_elements N.eqb Pos.eqb].
    rewrite <- app_assoc. cbn [app].
    rewrite scanstring_escaped by exact Hx. reflexivity.
  - inversion Hl as [| ? ? Hy Hl']; subst.
    change (join [44; 32] (List.map encode_basestring_ascii (x :: y :: l)))
      with (encode_basestring_ascii x ++ [44; 32]
            ++ join [44; 32] (List.map encode_basestring_ascii (y :: l))).
    unfold encode_basestring_ascii at 1.
    cbn [app parse_elements N.eqb Pos.eqb].
    rewrite <- !app_assoc. cbn [app].
    rewrite scanstring_escaped by exact Hx.
    cbn [skip_ws is_ws N.eqb Pos.eqb orb].
    rewrite skip_ws_join_encoded.
    rewrite (IH y fuel r Hy Hl') by (cbn [length] in Hfuel; lia).
    reflexivity.
Qed.

(** The length of the text bounds the passes of the loop. *)
Lemma length_join_encoded (l : list (list N)) :
  (length l <= length (join [44%N; 32%N] (List.map encode_basestring_ascii l)))%nat.
Proof.
  induction l as [| x [| y l] IH]; [cbn; lia | cbn; lia |].
  change (join [44; 32] (List.map encode_basestring_ascii (x :: y :: l)))
    with (encode_basestring_ascii x ++ [44; 32]
          ++ join [44; 32] (List.map encode_basestring_ascii (y :: l))).
  rewrite !length_app. cbn [length] in IH |- *. lia.
Qed.

(** [json.loads(json.dumps(l)) == l] for lists of strings that are
    [json_safe]. *)
Theorem json_loads_dumps (l : list (list N)) :
  Forall (fun s => json_safe s = true) l ->
  json_loads (json_dumps l) = Some l.
Proof.
  intros Hl. unfold json_dumps, json_loads.
  cbn [app skip_ws is_ws N.eqb Pos.eqb orb].
  destruct l as [| x l]; [reflexivity |].
  inversion Hl as [| ? ? Hx Hl']; subst.
  pose proof (length_join_encoded (x :: l)) as Hlen.
  pose proof (parse_elements_join l x) as Hparse.
  remember (join [44; 32] (List.map encode_basestring_ascii (x :: l))) as j eqn:Hj.
  assert (Hhead : exists j', j = 34 :: j').
  { subst j. destruct l; cbn; eauto. }
  destruct Hhead as [j' ->].
  cbn [app skip_ws is_ws N.eqb Pos.eqb orb].
  rewrite (Hparse _ [] Hx Hl').
  - reflexivity.
  - cbn [length] in Hlen |- *. rewrite length_app. cbn [length]. lia.
Qed.

(** ** The handler, case by case *)

(** [json.dumps] emits ASCII only, which SQLite can always bind. *)
Lemma ascii_only_app (s t : list N) : ascii_only s -> ascii_only t -> ascii_only (s ++ t).
Proof. apply Forall_app_2. Qed.

Lemma hexdigit_ascii (n : N) : n < 16 -> hexdigit n < 128.
Proof. unfold hexdigit. destruct (N.ltb_spec n 10); lia. Qed.

Lemma u_escape_ascii (n : N) : ascii_only (u_escape n).
Proof.
  unfold u_escape, hex4, ascii_only.
  repeat (apply Forall_cons; split;
          [first [ apply hexdigit_ascii; apply N.mod_lt; discriminate | reflexivity ] |]).
  apply Forall_nil_2.
Qed.

Lemma json_escape_ascii (c : N) : ascii_only (json_escape c).
Proof.
  unfold json_escape.
  repeat match goal with
  | |- context [if ?a =? ?b then _ else _] => destruct (N.eqb_spec a b)
  | |- context [if ?a <? ?b then _ else _] => destruct (N.ltb_spec a b)
  | |- context [if (?a <=? ?b) && (?c <=? ?d) then _ else _] =>
    destruct (N.leb_spec a b); destruct (N.leb_spec c d); cbn [andb]
  end;
  first [ apply u_escape_ascii
        | apply ascii_only_app; apply u_escape_ascii
        | repeat (apply Forall_cons; split; [lia |]); apply Forall_nil_2 ].
Qed.

Lemma encode_basestring_ascii_ascii (s : list N) : ascii_only (encode_basestring_ascii s).
Proof.
  unfold encode_basestring_ascii.
  apply ascii_only_app; [repeat constructor |].
  apply ascii_only_app; [| repeat constructor].
  induction s as [| c s IH]; [constructor |].
  cbn [List.flat_map]. apply ascii_only_app; [apply json_escape_ascii | exact IH].
Qed.

Lemma json_dumps_ascii (l : list (list N)) : ascii_only (json_dumps l).
Proof.
  unfold json_dumps.
  apply ascii_only_app; [repeat constructor |].
  apply ascii_only_app; [| repeat constructor].
  induction l as [| x [| y l] IH]; [constructor | apply encode_basestring_ascii_ascii |].
  change (join [44; 32] (List.map encode_basestring_ascii (x :: y :: l)))
    with (encode_basestring_ascii x ++ [44; 32]
          ++ join [44; 32] (List.map encode_basestring_ascii (y :: l))).
  apply ascii_only_app; [apply encode_basestring_ascii_ascii |].
  apply ascii_only_app; [repeat constructor | exact IH].
Qed.

Lemma ascii_bindable (s : list N) : ascii_only s -> bindable s = true.
Proof.
  intros H. unfold bindable. apply forallb_forall. intros c Hc.
  apply list_elem_of_In in Hc.
  pose proof (proj1 (Forall_forall _ _) H c Hc) as Hlt. cbn beta in Hlt.
  unfold utf8_char_ok. apply orb_true_iff. left. apply N.ltb_lt. lia.
Qed.

Lemma json_dumps_bindable (l : list (list N)) : bindable (json_dumps l) = true.
Proof. apply ascii_bindable, json_dumps_ascii. Qed.

(** A successful [INSERT]: the rowid and the table after it. *)
Lemma insert_row_some t s r sj b d a i t' :
  insert_row t s r sj b d a = Some (i, t') ->
  (max_rowid t < MAX_ROWID)%Z /\ i = (max_rowid t + 1)%Z
  /\ t' = {| rows := rows t ++
               [{| id := i; sender := s; recipients := r; subject := sj;
                   body := b; date := d; attachments := a |}];
             sqlite_sequence := i |}.
Proof.
  unfold insert_row. destruct (Z.ltb_spec (max_rowid t) MAX_ROWID); [| discriminate].
  intros [= <- <-]. auto.
Qed.

Section HandlerFacts.

Variable message_from_bytes : list byte -> option message.
Variable decode : list N -> list byte -> option (list N).
Variable resolve : list N -> list N.
Variable db_of_bytes : list byte -> table.
Variable open_fails : world -> list N -> bool.
Variable sqlite_fails : world -> bool.

Local Abbreviation is_database := (is_database resolve).
Local Abbreviation store := (store resolve db_of_bytes).
Local Abbreviation file_holds := (file_holds resolve db_of_bytes).
Local Abbreviation write_all := (write_all resolve db_of_bytes).
Local Abbreviation reached := (reached resolve db_of_bytes).
Local Abbreviation spares_database := (spares_database resolve).
Local Abbreviation open_wb := (open_wb resolve db_of_bytes open_fails).
Local Abbreviation write := (write resolve db_of_bytes).
Local Abbreviation walk_step := (walk_step decode resolve db_of_bytes open_fails).
Local Abbreviation walk_loop := (walk_loop decode resolve db_of_bytes open_fails).
Local Abbreviation extract := (extract decode resolve db_of_bytes open_fails).
Local Abbreviation handle_DATA :=
  (handle_DATA message_from_bytes decode resolve db_of_bytes open_fails sqlite_fails).
Local Abbreviation part_text := (part_text decode).
Local Abbreviation walk_body := (walk_body decode).
Local Abbreviation message_body := (message_body decode).
Local Abbreviation message_record := (message_record decode).
Local Abbreviation deliverable := (deliverable decode resolve db_of_bytes).
Local Abbreviation delivered := (delivered decode resolve db_of_bytes).

(** *** One write *)

Lemma store_localtime p b w : localtime (store p b w) = localtime w.
Proof. unfold store. destruct (is_database p); reflexivity. Qed.

(** The bytes written last are the ones that stay. *)
Lemma store_store p b0 b w : store p b (store p b0 w) = store p b w.
Proof.
  unfold store. destruct (is_database p); unfold set_emails, set_files; cbn.
  - reflexivity.
  - rewrite insert_insert_eq. reflexivity.
Qed.

Lemma store_files_other p b w q :
  resolve p <> q -> files (store p b w) !! q = files w !! q.
Proof.
  intros Hne. unfold store. destruct (is_database p); cbn; [reflexivity |].
  apply lookup_insert_ne. exact Hne.
Qed.

Lemma store_files_some p b w q :
  is_Some (files w !! q) -> is_Some (files (store p b w) !! q).
Proof.
  intros H. unfold store. destruct (is_database p); cbn; [exact H |].
  destruct (decide (resolve p = q)) as [<- | Hne].
  - rewrite lookup_insert_eq. eauto.
  - rewrite lookup_insert_ne by exact Hne. exact H.
Qed.

Lemma store_files_written p b w :
  is_database p = false -> files (store p b w) !! resolve p = Some b.
Proof.
  intros H. unfold store. rewrite H. cbn. apply lookup_insert_eq.
Qed.

Lemma store_emails p b w :
  is_database p = false -> emails (store p b w) = emails w.
Proof. intros H. unfold store. rewrite H. reflexivity. Qed.

Lemma is_database_resolve p q :
  resolve p = resolve q -> is_database p = is_database q.
Proof. intros H. unfold is_database. rewrite H. reflexivity. Qed.

Lemma store_holds p b w : file_holds (store p b w) p b.
Proof.
  unfold file_holds, store. destruct (is_database p); cbn;
    [reflexivity | apply lookup_insert_eq].
Qed.

Lemma store_holds_other p q b b' w :
  resolve p <> resolve q -> file_holds w q b -> file_holds (store p b' w) q b.
Proof.
  intros Hne. unfold file_holds, store.
  destruct (is_database q) eqn:Hq, (is_database p) eqn:Hp; cbn; intros H.
  - exfalso. apply Hne. unfold is_database in Hq, Hp.
    apply bool_decide_eq_true_1 in Hq, Hp. congruence.
  - exact H.
  - exact H.
  - rewrite lookup_insert_ne by exact Hne. exact H.
Qed.

(** *** A series of writes *)

Lemma write_all_app ps qs w :
  write_all (ps ++ qs) w = write_all qs (write_all ps w).
Proof. unfold write_all. apply fold_left_app. Qed.

Lemma write_all_cons x ps w :
  write_all (x :: ps) w
  = write_all ps (store (attachment_path x) (default [] (get_payload_decode x)) w).
Proof. reflexivity. Qed.

Lemma write_all_localtime ps : forall w, localtime (write_all ps w) = localtime w.
Proof.
  induction ps as [| x ps IH]; intros w; [reflexivity |].
  rewrite write_all_cons, IH. apply store_localtime.
Qed.

(** The table is as it was when no part lands on the database file. *)
Lemma write_all_emails ps : forall w,
  (forall x, x ∈ ps -> is_database (attachment_path x) = false) ->
  emails (write_all ps w) = emails w.
Proof.
  induction ps as [| x ps IH]; intros w H; [reflexivity |].
  rewrite write_all_cons, IH by (intros y Hy; apply H; right; exact Hy).
  apply store_emails. apply H. left.
Qed.

Lemma write_all_holds_other ps q b : forall w,
  (forall x, x ∈ ps -> resolve (attachment_path x) <> resolve q) ->
  file_holds w q b -> file_holds (write_all ps w) q b.
Proof.
  induction ps as [| x ps IH]; intros w H Hw; [exact Hw |].
  rewrite write_all_cons. apply IH; [intros y Hy; apply H; right; exact Hy |].
  apply store_holds_other; [apply H; left | exact Hw].
Qed.

(** After a series of writes, a file holds the bytes of the last part
    written to it. *)
Lemma write_all_last_holds before a after w :
  (forall x, x ∈ after ->
     resolve (attachment_path x) <> resolve (attachment_path a)) ->
  file_holds (write_all (before ++ a :: after) w) (attachment_path a)
    (default [] (get_payload_decode a)).
Proof.
  intros H. rewrite write_all_app, write_all_cons.
  apply write_all_holds_other; [exact H | apply store_holds].
Qed.

Lemma write_all_last before a after w :
  is_database (attachment_path a) = false ->
  (forall x, x ∈ after ->
     resolve (attachment_path x) <> resolve (attachment_path a)) ->
  files (write_all (before ++ a :: after) w) !! resolve (attachment_path a)
  = Some (default [] (get_payload_decode a)).
Proof.
  intros Hdb H.
  pose proof (write_all_last_holds before a after w H) as Hh.
  unfold file_holds in Hh. rewrite Hdb in Hh. exact Hh.
Qed.

Lemma write_all_written ps a : forall w,
  a ∈ ps -> is_database (attachment_path a) = false ->
  is_Some (files (write_all ps w) !! resolve (attachment_path a)).
Proof.
  induction ps as [| x ps IH] using rev_ind; intros w Hin Hdb.
  - inversion Hin.
  - rewrite write_all_app, write_all_cons. cbn [write_all fold_left].
    destruct (decide (resolve (attachment_path x) = resolve (attachment_path a)))
      as [Heq | Hne].
    + rewrite <- Heq. rewrite store_files_written; [eauto |].
      rewrite (is_database_resolve _ _ Heq). exact Hdb.
    + rewrite store_files_other by exact Hne.
      apply elem_of_app in Hin as [Hin | Hin]; [apply IH; assumption |].
      apply list_elem_of_singleton in Hin. subst. contradiction.
Qed.

(** *** Worlds reached by writes *)

Lemma reached_trans paths w w1 w2 :
  reached paths w w1 -> reached paths w1 w2 -> reached paths w w2.
Proof.
  intros H1 H2. induction H2 as [| w2 p b _ IH Hp]; [exact H1 |].
  apply reached_store; assumption.
Qed.

Lemma reached_mono paths paths' w w' :
  (forall p, p ∈ paths -> p ∈ paths') ->
  reached paths w w' -> reached paths' w w'.
Proof.
  intros Hsub H. induction H as [| w1 p b _ IH Hp]; [apply reached_refl |].
  apply reached_store; [exact IH | apply Hsub, Hp].
Qed.

Lemma reached_one p b w : reached [p] w (store p b w).
Proof. apply reached_store; [apply reached_refl | left]. Qed.

Lemma reached_localtime paths w w' :
  reached paths w w' -> localtime w' = localtime w.
Proof.
  induction 1 as [| w1 p b _ IH _]; [reflexivity |].
  rewrite store_localtime. exact IH.
Qed.

Lemma reached_files_some paths w w' q :
  reached paths w w' -> is_Some (files w !! q) -> is_Some (files w' !! q).
Proof.
  induction 1 as [| w1 p b _ IH _]; intros H; [exact H |].
  apply store_files_some, IH, H.
Qed.

Lemma reached_files_other paths w w' q :
  reached paths w w' ->
  (forall p, p ∈ paths -> resolve p <> q) ->
  files w' !! q = files w !! q.
Proof.
  induction 1 as [| w1 p b _ IH Hp]; intros H; [reflexivity |].
  rewrite store_files_other by (apply H, Hp). apply IH, H.
Qed.

Lemma reached_emails paths w w' :
  reached paths w w' ->
  (forall p, p ∈ paths -> is_database p = false) ->
  emails w' = emails w.
Proof.
  induction 1 as [| w1 p b _ IH Hp]; intros H; [reflexivity |].
  rewrite store_emails by (apply H, Hp). apply IH, H.
Qed.

(** Writes insert no row: the table is as it was, or it is what is read
    from bytes written over the database file. *)
Lemma reached_emails_cases paths w w' :
  reached paths w w' ->
  emails w' = emails w \/ exists b, emails w' = db_of_bytes b.
Proof.
  induction 1 as [| w1 p b _ IH _]; [left; reflexivity |].
  unfold store. destruct (is_database p); cbn [emails set_emails set_files];
    [right; eauto | exact IH].
Qed.

Lemma write_all_reached ps : forall w,
  reached (List.map attachment_path ps) w (write_all ps w).
Proof.
  induction ps as [| x ps IH]; intros w; [apply reached_refl |].
  rewrite write_all_cons. eapply reached_trans.
  - eapply reached_mono; [| apply reached_one].
    intros p Hp. apply list_elem_of_singleton in Hp. subst. left.
  - eapply reached_mono; [| apply IH]. intros p Hp. right. exact Hp.
Qed.

(** *** One pass of the loop on each class of part *)

Lemma walk_step_container part body atts w :
  is_container_part part = true ->
  walk_step part body atts w = (Ok (body, atts), w).
Proof.
  unfold is_container_part, walk_step. intros ->. reflexivity.
Qed.

Lemma walk_step_body part body atts w :
  is_body_part part = true ->
  walk_step part body atts w = (Ok (body ++ part_text part, atts), w).
Proof.
  unfold is_body_part, is_container_part, has_attachment_disposition, walk_step.
  intros H. apply andb_true_iff in H as [H1 H2].
  apply negb_true_iff in H1, H2. rewrite H1, H2.
  unfold part_text.
  destruct (get_payload_decode part) as [payload |];
    [destruct (truthy payload) |]; unfold ret; rewrite ?app_nil_r; reflexivity.
Qed.

Lemma walk_step_unnamed part body atts w :
  is_container_part part = false ->
  has_attachment_disposition part = true ->
  declares_filename part = false ->
  walk_step part body atts w = (Ok (body, atts), w).
Proof.
  unfold is_container_part, has_attachment_disposition, declares_filename,
    walk_step.
  intros -> -> H.
  destruct (get_filename part) as [f |]; [rewrite H |]; reflexivity.
Qed.

Lemma walk_step_attachment part body atts w :
  is_attachment_part part = true ->
  walk_step part body atts w =
  (open_wb (attachment_path part) ;;;
   write (attachment_path part) (get_payload_decode part) ;;;
   ret (body, atts ++ [attachment_path part])) w.
Proof.
  unfold is_attachment_part, is_container_part, has_attachment_disposition,
    declares_filename, walk_step, attachment_path.
  intros H. apply andb_true_iff in H as [H H3].
  apply andb_true_iff in H as [H1 H2]. apply negb_true_iff in H1.
  rewrite H1, H2.
  destruct (get_filename part) as [f |]; [| discriminate].
  rewrite H3. reflexivity.
Qed.

(** The three classes exhaust the parts. *)
Lemma part_classes part :
  is_container_part part = true
  \/ is_attachment_part part = true
  \/ is_body_part part = true
  \/ (is_container_part part = false /\ has_attachment_disposition part = true
      /\ declares_filename part = false).
Proof.
  unfold is_attachment_part, is_body_part.
  destruct (is_container_part part), (has_attachment_disposition part),
    (declares_filename part); cbn; tauto.
Qed.

Lemma attachment_not_body part :
  is_attachment_part part = true -> is_body_part part = false.
Proof.
  unfold is_attachment_part, is_body_part.
  destruct (is_container_part part), (has_attachment_disposition part),
    (declares_filename part); cbn; congruence.
Qed.

Lemma body_not_attachment part :
  is_body_part part = true -> is_attachment_part part = false.
Proof.
  unfold is_attachment_part, is_body_part.
  destruct (is_container_part part), (has_attachment_disposition part),
    (declares_filename part); cbn; congruence.
Qed.

Lemma container_not_attachment part :
  is_container_part part = true -> is_attachment_part part = false.
Proof. intros H. unfold is_attachment_part. rewrite H. reflexivity. Qed.

Lemma container_not_body part :
  is_container_part part = true -> is_body_part part = false.
Proof. intros H. unfold is_body_part. rewrite H. reflexivity. Qed.

Lemma unnamed_not_attachment part :
  declares_filename part = false -> is_attachment_part part = false.
Proof. intros H. unfold is_attachment_part. rewrite H. apply andb_false_r. Qed.

Lemma disposition_not_body part :
  has_attachment_disposition part = true -> is_body_part part = false.
Proof. intros H. unfold is_body_part. rewrite H. apply andb_false_r. Qed.

(** The two outcomes of writing one attachment: the file holds the
    payload; or an exception leaves, before the file was opened or with
    the file opened and empty. *)
Lemma attachment_write part body atts w (r : result (list N * list (list N))) w' :
  (open_wb (attachment_path part) ;;;
   write (attachment_path part) (get_payload_decode part) ;;;
   ret (body, atts ++ [attachment_path part])) w = (r, w') ->
  (r = Ok (body, atts ++ [attachment_path part])
   /\ writable part = true
   /\ open_fails w (attachment_path part) = false
   /\ w' = write_all [part] w)
  \/ (exists e, r = Raise e
                /\ (w' = w \/ w' = store (attachment_path part) [] w)).
Proof.
  unfold bind, open_wb, write, writable, ret.
  destruct (fs_encodable (attachment_path part)); cbn [negb andb];
    [| intros [= <- <-]; right; eauto].
  destruct (has_nul (attachment_path part)); cbn [negb andb];
    [intros [= <- <-]; right; eauto |].
  destruct (open_fails w (attachment_path part));
    [intros [= <- <-]; right; eauto |].
  destruct (get_payload_decode part) as [b |] eqn:Hb; intros [= <- <-].
  - left. split; [reflexivity |]. split; [reflexivity |]. split; [reflexivity |].
    cbn [write_all fold_left]. rewrite Hb. cbn [default].
    apply store_store.
  - right. eauto.
Qed.

(** Whatever its outcome, the loop does nothing to the world but write
    through the paths of its attachment parts. *)
Lemma walk_step_reached part body atts w
    (r : result (list N * list (list N))) w' :
  walk_step part body atts w = (r, w') ->
  reached (List.map attachment_path (List.filter is_attachment_part [part])) w w'.
Proof.
  intros Hstep. cbn [List.filter].
  destruct (part_classes part) as [Hc | [Ha | [Hb | (Hc & Hd & Hf)]]].
  - rewrite walk_step_container in Hstep by exact Hc.
    inversion Hstep; subst. apply reached_refl.
  - rewrite walk_step_attachment in Hstep by exact Ha. rewrite Ha. cbn [List.map].
    apply attachment_write in Hstep
      as [(_ & _ & _ & ->) | (e & _ & [-> | ->])];
      [apply reached_one | apply reached_refl | apply reached_one].
  - rewrite walk_step_body in Hstep by exact Hb.
    inversion Hstep; subst. apply reached_refl.
  - rewrite walk_step_unnamed in Hstep by assumption.
    inversion Hstep; subst. apply reached_refl.
Qed.

Lemma walk_loop_reached parts : forall body atts w
    (r : result (list N * list (list N))) w',
  walk_loop parts body atts w = (r, w') ->
  reached (List.map attachment_path (List.filter is_attachment_part parts)) w w'.
Proof.
  induction parts as [| part parts IH]; intros body atts w r w' H.
  - inversion H; subst. apply reached_refl.
  - cbn [walk_loop] in H. unfold bind at 1 in H.
    destruct (walk_step part body atts w) as [[acc | e] w1] eqn:Hstep.
    + apply walk_step_reached in Hstep. apply IH in H.
      cbn [List.filter] in Hstep |- *.
      apply reached_trans with w1.
      * eapply reached_mono; [| exact Hstep].
        intros p Hp. destruct (is_attachment_part part); cbn [List.map] in *.
        -- apply list_elem_of_singleton in Hp. subst. left.
        -- inversion Hp.
      * eapply reached_mono; [| exact H].
        intros p Hp. destruct (is_attachment_part part); cbn [List.map];
          [right |]; exact Hp.
    + inversion H; subst. apply walk_step_reached in Hstep.
      cbn [List.filter] in Hstep |- *.
      eapply reached_mono; [| exact Hstep].
      intros p Hp. destruct (is_attachment_part part); cbn [List.map] in *.
      * apply list_elem_of_singleton in Hp. subst. left.
      * inversion Hp.
Qed.

(** What a completed loop has accumulated and written, and what let it
    complete: every attachment part was writable, and no [open] was
    refused in the world it was called in. *)
Lemma walk_loop_done parts : forall body atts w body' atts' w',
  walk_loop parts body atts w = (Ok (body', atts'), w') ->
  body' = body ++ walk_body parts
  /\ atts' = atts ++ List.map attachment_path (List.filter is_attachment_part parts)
  /\ w' = write_all (List.filter is_attachment_part parts) w
  /\ forallb writable (List.filter is_attachment_part parts) = true
  /\ (forall l1 a l2,
        List.filter is_attachment_part parts = l1 ++ a :: l2 ->
        open_fails (write_all l1 w) (attachment_path a) = false).
Proof.
  unfold walk_body.
  induction parts as [| part parts IH]; intros body atts w body' atts' w' H.
  - inversion H; subst. cbn. rewrite !app_nil_r.
    repeat split. intros [| ? ?] ? ? ?; discriminate.
  - cbn [walk_loop] in H. unfold bind at 1 in H.
    destruct (walk_step part body atts w) as [[[b1 a1] | e] w1] eqn:Hstep;
      [| discriminate].
    cbn [fst snd] in H. apply IH in H as (Hb' & Ha' & Hw' & Hwr & Hop).
    cbn [List.filter].
    destruct (part_classes part) as [Hc | [Ha | [Hb | (Hc & Hd & Hf)]]].
    + rewrite walk_step_container in Hstep by exact Hc.
      inversion Hstep; subst b1 a1 w1.
      rewrite (container_not_attachment _ Hc), (container_not_body _ Hc).
      auto.
    + rewrite walk_step_attachment in Hstep by exact Ha.
      apply attachment_write in Hstep
        as [(Hr & Hwp & Hopen & ->) | (e & He & _)]; [| discriminate].
      inversion Hr; subst b1 a1.
      rewrite Ha, (attachment_not_body _ Ha).
      cbn [List.map forallb]. rewrite Hwp, Hwr.
      rewrite <- app_assoc in Ha'. cbn [app] in Ha'.
      repeat split; try assumption.
      intros [| x l1] a l2 Hsplit; cbn [app] in Hsplit; inversion Hsplit; subst.
      * exact Hopen.
      * rewrite write_all_cons. apply (Hop l1 a l2). assumption.
    + rewrite walk_step_body in Hstep by exact Hb.
      inversion Hstep; subst b1 a1 w1.
      rewrite Hb, (body_not_attachment _ Hb).
      cbn [List.map List.concat]. rewrite app_assoc. auto.
    + rewrite walk_step_unnamed in Hstep by assumption.
      inversion Hstep; subst b1 a1 w1.
      rewrite (unnamed_not_attachment _ Hf), (disposition_not_body _ Hd).
      auto.
Qed.

(** With a file system that does not fail, the loop completes as soon as
    the attachment parts are writable. *)
Lemma walk_loop_completes parts :
  (forall w p, open_fails w p = false) ->
  forallb writable (List.filter is_attachment_part parts) = true ->
  forall body atts w,
    walk_loop parts body atts w =
    (Ok (body ++ walk_body parts,
         atts ++ List.map attachment_path (List.filter is_attachment_part parts)),
     write_all (List.filter is_attachment_part parts) w).
Proof.
  intros Hfs. unfold walk_body.
  induction parts as [| part parts IH]; intros Hwr body atts w.
  - cbn. rewrite !app_nil_r. reflexivity.
  - cbn [walk_loop]. unfold bind at 1.
    cbn [List.filter] in Hwr |- *.
    destruct (part_classes part) as [Hc | [Ha | [Hb | (Hc & Hd & Hf)]]].
    + rewrite walk_step_container by exact Hc.
      rewrite (container_not_attachment _ Hc) in Hwr |- *.
      rewrite (container_not_body _ Hc). apply IH. exact Hwr.
    + rewrite walk_step_attachment by exact Ha.
      rewrite Ha in Hwr |- *. rewrite (attachment_not_body _ Ha).
      cbn [forallb] in Hwr. apply andb_true_iff in Hwr as [Hwp Hwr].
      unfold writable in Hwp.
      apply andb_true_iff in Hwp as [Hwp Hpay].
      apply andb_true_iff in Hwp as [Henc Hnul]. apply negb_true_iff in Hnul.
      destruct (get_payload_decode part) as [b |] eqn:Hb; [| discriminate].
      unfold bind, open_wb, write, ret. rewrite Henc, Hnul, Hfs. cbn [negb].
      cbn [fst snd]. rewrite IH by exact Hwr.
      cbn [List.map]. rewrite <- app_assoc. cbn [app].
      rewrite write_all_cons, Hb. cbn [default]. rewrite store_store. reflexivity.
    + rewrite walk_step_body by exact Hb.
      rewrite Hb. rewrite (body_not_attachment _ Hb) in Hwr |- *.
      cbn [fst snd]. rewrite IH by exact Hwr.
      cbn [List.map List.concat]. rewrite app_assoc. reflexivity.
    + rewrite walk_step_unnamed by assumption.
      rewrite (unnamed_not_attachment _ Hf) in Hwr |- *.
      rewrite (disposition_not_body _ Hd). apply IH. exact Hwr.
Qed.

(** The two outcomes of [save_email_to_db]. *)
Lemma save_outcome s r sj b d atts w (res : result unit) w' :
  save_email_to_db sqlite_fails s r sj b d atts w = (res, w') ->
  (res = Ok tt /\ sqlite_fails w = false
   /\ forallb bindable [s; r; sj; b; d] = true
   /\ (max_rowid (emails w) < MAX_ROWID)%Z
   /\ w' = set_emails
            {| rows := rows (emails w) ++
                 [{| id := max_rowid (emails w) + 1; sender := s; recipients := r;
                     subject := sj; body := b; date := d;
                     attachments := json_dumps atts |}];
               sqlite_sequence := max_rowid (emails w) + 1 |} w)
  \/ (exists e, res = Raise e /\ w' = w).
Proof.
  unfold save_email_to_db.
  destruct (sqlite_fails w); [intros [= <- <-]; right; eauto |].
  destruct (forallb bindable _) eqn:Hbind; cbn [negb];
    [| intros [= <- <-]; right; eauto].
  destruct (insert_row _ _ _ _ _ _ _) as [[i t] |] eqn:Hins;
    intros [= <- <-]; [| right; eauto].
  apply insert_row_some in Hins as (Hmax & -> & ->).
  left. repeat split; try assumption.
  cbn [forallb] in Hbind |- *.
  repeat (apply andb_true_iff in Hbind as [? Hbind]).
  repeat (apply andb_true_iff; split; try assumption).
Qed.

(** [save_email_to_db] succeeds when nothing stands in its way. *)
Lemma save_succeeds s r sj b d atts w :
  sqlite_fails w = false ->
  forallb bindable [s; r; sj; b; d] = true ->
  (max_rowid (emails w) <? MAX_ROWID)%Z = true ->
  save_email_to_db sqlite_fails s r sj b d atts w =
  (Ok tt,
   set_emails
     {| rows := rows (emails w) ++
          [{| id := max_rowid (emails w) + 1; sender := s; recipients := r;
              subject := sj; body := b; date := d;
              attachments := json_dumps atts |}];
        sqlite_sequence := max_rowid (emails w) + 1 |} w).
Proof.
  intros Hsq Hbind Hmax. unfold save_email_to_db, insert_row.
  rewrite Hsq, Hmax.
  assert (forallb bindable [s; r; sj; b; d; json_dumps atts] = true) as ->.
  { cbn [forallb] in Hbind |- *.
    repeat (apply andb_true_iff in Hbind as [? Hbind]).
    repeat (apply andb_true_iff; split; try assumption).
    apply json_dumps_bindable. }
  reflexivity.
Qed.

Lemma handle_DATA_unparsed envelope w :
  message_from_bytes (content envelope) = None ->
  handle_DATA envelope w = (Ok REJECTED, w).
Proof. intros H. unfold handle_DATA. rewrite H. reflexivity. Qed.

(** [handle_DATA] after a successful parse: extract, save, reply. *)
Lemma handle_DATA_parsed envelope msg w :
  message_from_bytes (content envelope) = Some msg ->
  handle_DATA envelope w =
  (acc <- extract msg ;;
   save_email_to_db sqlite_fails
     (get msg (lit "From") (mail_from envelope))
     (get msg (lit "To") (join (lit ", ") (rcpt_tos envelope)))
     (get msg (lit "Subject") (lit "(No Subject)"))
     (fst acc)
     (get msg (lit "Date") (strftime_Ymd_HMS (localtime w)))
     (snd acc) ;;;
   ret ACCEPTED) w.
Proof. intros H. unfold handle_DATA. rewrite H. reflexivity. Qed.

Lemma extract_reached msg w (r : result (list N * list (list N))) w' :
  extract msg w = (r, w') -> reached (message_attachments msg) w w'.
Proof.
  unfold extract, message_attachments, attachment_parts.
  destruct (is_multipart msg); [apply walk_loop_reached |].
  destruct (get_payload_decode msg) as [p |]; [destruct (truthy p) |];
    intros [= <- <-]; apply reached_refl.
Qed.

Lemma extract_done msg w b a w' :
  extract msg w = (Ok (b, a), w') ->
  b = message_body msg /\ a = message_attachments msg
  /\ w' = write_all (attachment_parts msg) w
  /\ forallb writable (attachment_parts msg) = true
  /\ (forall l1 x l2,
        attachment_parts msg = l1 ++ x :: l2 ->
        open_fails (write_all l1 w) (attachment_path x) = false).
Proof.
  unfold extract, message_body, message_attachments,
    attachment_parts, part_text.
  destruct (is_multipart msg).
  - intros H. apply walk_loop_done in H as (-> & -> & -> & Hw & Hop). auto.
  - cbn [write_all fold_left List.map forallb].
    destruct (get_payload_decode msg) as [p |]; [destruct (truthy p) |];
      intros [= <- <- <-]; repeat split;
      intros [| ? ?] ? ? ?; discriminate.
Qed.

Lemma extract_completes msg w :
  (forall w p, open_fails w p = false) ->
  forallb writable (attachment_parts msg) = true ->
  extract msg w =
  (Ok (message_body msg, message_attachments msg),
   write_all (attachment_parts msg) w).
Proof.
  intros Hfs. unfold extract, message_body,
    message_attachments, attachment_parts, part_text.
  destruct (is_multipart msg).
  - intros Hwr. rewrite walk_loop_completes by assumption. reflexivity.
  - intros _. cbn [write_all fold_left List.map].
    destruct (get_payload_decode msg) as [p |]; [destruct (truthy p) |];
      reflexivity.
Qed.

(** The world after the insert that follows the writes. *)
Lemma delivered_after_writes envelope msg w :
  set_emails
    {| rows := rows (emails (write_all (attachment_parts msg) w)) ++
         [message_record envelope msg w
            (max_rowid (emails (write_all (attachment_parts msg) w)) + 1)];
       sqlite_sequence := max_rowid (emails (write_all (attachment_parts msg) w)) + 1 |}
    (write_all (attachment_parts msg) w)
  = delivered envelope msg w.
Proof.
  unfold delivered, set_emails. cbn [files localtime].
  rewrite write_all_localtime. reflexivity.
Qed.

(** Every outcome of [handle_DATA] on a message that parses.  Either the
    reply is 250: the attachments were written, no [open] having been
    refused, and then the row was inserted.  Or an exception leaves, and
    the world is as the writes made until then have left it. *)
Lemma handle_DATA_outcome envelope msg w (res : result (list N)) w' :
  message_from_bytes (content envelope) = Some msg ->
  handle_DATA envelope w = (res, w') ->
  (res = Ok ACCEPTED /\ w' = delivered envelope msg w
   /\ deliverable envelope msg w = true
   /\ sqlite_fails (write_all (attachment_parts msg) w) = false
   /\ (forall l1 a l2,
         attachment_parts msg = l1 ++ a :: l2 ->
         open_fails (write_all l1 w) (attachment_path a) = false))
  \/ (exists e, res = Raise e /\ reached (message_attachments msg) w w').
Proof.
  intros Hparse. rewrite (handle_DATA_parsed _ _ _ Hparse).
  unfold bind at 1.
  destruct (extract msg w) as [[[b a] | e] w1] eqn:Hex.
  - pose proof (extract_reached _ _ _ _ Hex) as Hreach.
    apply extract_done in Hex as (-> & -> & Hw1 & Hwr & Hop).
    cbn [fst snd]. unfold bind.
    destruct (save_email_to_db _ _ _ _ _ _ _ w1) as [[[] | e] w2] eqn:Hsave.
    + apply save_outcome in Hsave
        as [(_ & Hsq & Hbind & Hmax & ->) | (e & He & _)]; [| discriminate].
      intros [= <- <-]. left. split; [reflexivity |]. subst w1.
      split; [apply delivered_after_writes |].
      split; [| split; assumption].
      unfold deliverable. rewrite Hwr.
      cbn [message_record sender recipients subject body date andb].
      rewrite Hbind. apply Z.ltb_lt. exact Hmax.
    + apply save_outcome in Hsave
        as [(Hok & _) | (e' & He & ->)]; [discriminate |].
      intros [= <- <-]. right. eauto.
  - apply extract_reached in Hex.
    intros [= <- <-]. right. eauto.
Qed.

(** With storage that does not fail, a deliverable message is accepted. *)
Lemma handle_DATA_accepts envelope msg w :
  (forall w p, open_fails w p = false) ->
  (forall w, sqlite_fails w = false) ->
  message_from_bytes (content envelope) = Some msg ->
  deliverable envelope msg w = true ->
  handle_DATA envelope w = (Ok ACCEPTED, delivered envelope msg w).
Proof.
  intros Hfs Hsq Hparse Hdel. rewrite (handle_DATA_parsed _ _ _ Hparse).
  unfold deliverable in Hdel.
  apply andb_true_iff in Hdel as [Hdel Hmax].
  apply andb_true_iff in Hdel as [Hwr Hbind].
  cbn [message_record sender recipients subject body date] in Hbind.
  unfold bind at 1. rewrite extract_completes by assumption.
  cbn [fst snd]. unfold bind.
  rewrite save_succeeds by (try apply Hsq; assumption).
  unfold ret. rewrite <- delivered_after_writes. reflexivity.
Qed.

(** A reply on a message that parses is the 250 reply, and the world is
    [delivered]. *)
Lemma handle_DATA_replied envelope msg w reply w' :
  message_from_bytes (content envelope) = Some msg ->
  handle_DATA envelope w = (Ok reply, w') ->
  reply = ACCEPTED /\ w' = delivered envelope msg w
  /\ deliverable envelope msg w = true.
Proof.
  intros Hparse Hrun.
  destruct (handle_DATA_outcome _ _ _ _ _ Hparse Hrun)
    as [(Hres & Hw & Hd & _) | (e & He & _)]; [| discriminate].
  inversion Hres. auto.
Qed.

(** The row of an accepted message is the last of the table. *)
Lemma delivered_last envelope msg w :
  last (rows (emails (delivered envelope msg w)))
  = Some (message_record envelope msg w
            (max_rowid (emails (write_all (attachment_parts msg) w)) + 1)).
Proof. cbn [delivered emails rows]. apply last_snoc. Qed.

(** It follows the rows that were there when no attachment has landed on
    the database file. *)
Lemma delivered_rows envelope msg w :
  spares_database msg = true ->
  delivered envelope msg w
  = {| files := files (write_all (attachment_parts msg) w);
       emails := {| rows := rows (emails w) ++
                      [message_record envelope msg w (max_rowid (emails w) + 1)];
                    sqlite_sequence := max_rowid (emails w) + 1 |};
       localtime := localtime w |}.
Proof.
  intros Hsp. unfold delivered. cbn zeta.
  rewrite write_all_emails; [reflexivity |].
  intros x Hx. unfold spares_database in Hsp.
  rewrite forallb_forall in Hsp. apply negb_true_iff, Hsp.
  apply list_elem_of_In, Hx.
Qed.

Lemma spares_database_paths msg :
  spares_database msg = true ->
  forall p, p ∈ message_attachments msg -> is_database p = false.
Proof.
  intros Hsp p Hp. unfold message_attachments in Hp.
  apply list_elem_of_fmap in Hp as (x & -> & Hx).
  unfold spares_database in Hsp. rewrite forallb_forall in Hsp.
  apply negb_true_iff, Hsp. apply list_elem_of_In, Hx.
Qed.

End HandlerFacts.

(** ** The table and its listing *)

#[local] Instance id_desc_total : Total id_desc.
Proof. intros r1 r2. unfold id_desc. lia. Qed.

#[local] Instance id_desc_trans : Transitive id_desc.
Proof. intros r1 r2 r3. unfold id_desc. lia. Qed.

(** [max_rowid] bounds the counter and every id of the table, and after
    an insert it is the id just assigned. *)
Lemma max_rowid_ge_sequence (t : table) : (sqlite_sequence t <= max_rowid t)%Z.
Proof.
  unfold max_rowid. induction (rows t) as [| r l IH]; cbn; lia.
Qed.

Lemma max_rowid_ge_id (t : table) (r : row) :
  r ∈ rows t -> (id r <= max_rowid t)%Z.
Proof.
  unfold max_rowid. induction (rows t) as [| r0 l IH]; intros Hin.
  - inversion Hin.
  - apply elem_of_cons in Hin as [-> | Hin]; cbn; [lia |].
    specialize (IH Hin). lia.
Qed.

Lemma max_rowid_after_insert (t : table) (r : row) :
  id r = (max_rowid t + 1)%Z ->
  max_rowid {| rows := rows t ++ [r]; sqlite_sequence := id r |} = id r.
Proof.
  intros Hid. unfold max_rowid at 1. cbn [rows sqlite_sequence].
  assert (H : forall l : list row,
             (forall x, x ∈ l -> (id x <= id r)%Z) ->
             fold_right Z.max (id r) (List.map id (l ++ [r])) = id r).
  { induction l as [| x l IH]; intros Hl; cbn; [lia |].
    rewrite IH by (intros y Hy; apply Hl; right; exact Hy).
    specialize (Hl x ltac:(left)). lia. }
  apply H. intros x Hx. apply max_rowid_ge_id in Hx. lia.
Qed.

(** A strongly sorted list without two equal ids is strictly descending. *)
Lemma descending_strict (l : list row) :
  StronglySorted id_desc l -> NoDup (id <$> l) ->
  StronglySorted (flip id_lt) l.
Proof.
  induction 1 as [| r l Hl IH Hall]; intros Hnd; [constructor |].
  cbn in Hnd. apply NoDup_cons in Hnd as [Hnotin Hnd].
  constructor; [apply IH; exact Hnd |].
  apply Forall_forall. intros x Hx.
  pose proof (proj1 (Forall_forall _ _) Hall x Hx) as Hle.
  unfold id_desc in Hle. unfold flip, id_lt.
  assert (id x <> id r).
  { intros Heq. apply Hnotin. rewrite <- Heq.
    apply list_elem_of_fmap_2. exact Hx. }
  lia.
Qed.

(** The listing holds the rows of the table, in descending order of id. *)
Lemma select_permutation (t : table) : select_order_by_id_desc t ≡ₚ rows t.
Proof. apply merge_sort_Permutation. Qed.

Lemma select_descending (t : table) :
  StronglySorted id_desc (select_order_by_id_desc t).
Proof. apply StronglySorted_merge_sort; apply _. Qed.

Lemma select_strictly_descending (t : table) :
  NoDup (id <$> rows t) ->
  StronglySorted (flip id_lt) (select_order_by_id_desc t).
Proof.
  intros Hnd. apply descending_strict; [apply select_descending |].
  rewrite select_permutation. exact Hnd.
Qed.

Section Appends.

Variable sqlite_fails : world -> bool.

Local Abbreviation append := (append sqlite_fails).
Local Abbreviation append_all := (append_all sqlite_fails).

(** The two outcomes of one append. *)
Lemma append_outcome p w (res : result unit) w' :
  append p w = (res, w') ->
  (res = Ok tt /\ (max_rowid (emails w) < MAX_ROWID)%Z
   /\ w' = set_emails
            {| rows := rows (emails w) ++ [record_of p (max_rowid (emails w) + 1)];
               sqlite_sequence := (max_rowid (emails w) + 1)%Z |} w)
  \/ (exists e, res = Raise e /\ w' = w).
Proof.
  unfold append. intros H.
  apply save_outcome in H as [(-> & _ & _ & Hmax & ->) | H]; [left | right]; auto.
Qed.

(** The rows a run of appends adds: each stores its message, and their
    ids climb from above everything the table ever held. *)
Lemma append_all_rows ps : forall w w',
  append_all ps w = (Ok tt, w') ->
  exists new,
    rows (emails w') = rows (emails w) ++ new
    /\ Forall2 (fun p r => r = record_of p (id r)) ps new
    /\ StronglySorted id_lt new
    /\ Forall (fun r => (max_rowid (emails w) < id r)%Z) new
    /\ files w' = files w.
Proof.
  induction ps as [| p ps IH]; intros w w' H.
  - inversion H; subst. exists []. rewrite app_nil_r.
    repeat split; constructor.
  - cbn [append_all] in H. unfold bind in H.
    destruct (append p w) as [[[] | e] w1] eqn:Hp; [| discriminate].
    apply append_outcome in Hp as [(_ & Hmax & ->) | (e & He & _)];
      [| discriminate].
    apply IH in H as (new & Hrows & Hrec & Hsorted & Hgt & Hfiles).
    cbn [emails set_emails rows] in Hrows, Hgt.
    set (r := record_of p (max_rowid (emails w) + 1)) in *.
    assert (Hmax' : max_rowid
              {| rows := rows (emails w) ++ [r];
                 sqlite_sequence := (max_rowid (emails w) + 1)%Z |} = id r)
      by (apply (max_rowid_after_insert (emails w) r); reflexivity).
    rewrite Hmax' in Hgt.
    exists (r :: new). repeat split.
    + rewrite Hrows, <- app_assoc. reflexivity.
    + constructor; [reflexivity | exact Hrec].
    + constructor; [exact Hsorted | exact Hgt].
    + constructor; [cbn; lia |].
      eapply Forall_impl; [exact Hgt |]. cbn. intros x Hx. lia.
    + exact Hfiles.
Qed.

End Appends.

(** ** The attachment files *)

(** A path [open] accepts has no high surrogate, so it survives JSON. *)
Lemma fs_encodable_json_safe (s : list N) : fs_encodable s = true -> json_safe s = true.
Proof.
  unfold fs_encodable. induction s as [| c s IH]; [reflexivity |].
  cbn [forallb json_safe]. intros H. apply andb_true_iff in H as [Hc Hs].
  rewrite (IH Hs), andb_true_r.
  unfold fs_char_ok in Hc. unfold is_high_surrogate.
  apply andb_true_iff. split.
  - apply N.ltb_lt.
    repeat (apply orb_true_iff in Hc as [Hc | Hc]);
      repeat (apply andb_true_iff in Hc as [? Hc]);
      repeat match goal with
             | H : (_ <? _) = true |- _ => apply N.ltb_lt in H
             | H : (_ <=? _) = true |- _ => apply N.leb_le in H
             end; lia.
  - apply negb_true_iff, andb_false_iff. left. apply andb_false_iff.
    repeat (apply orb_true_iff in Hc as [Hc | Hc]);
      repeat (apply andb_true_iff in Hc as [? Hc]);
      repeat match goal with
             | H : (_ <? _) = true |- _ => apply N.ltb_lt in H
             | H : (_ <=? _) = true |- _ => apply N.leb_le in H
             end;
      first [ left; apply N.leb_gt; lia | right; apply N.leb_gt; lia ].
Qed.

Lemma load_attachments_dumps (l : list (list N)) :
  Forall (fun s => json_safe s = true) l ->
  load_attachments (json_dumps l) = Some l.
Proof. intros H. unfold load_attachments. cbn [json_dumps app truthy]. apply json_loads_dumps, H. Qed.

Lemma writable_paths_safe (parts : list message) :
  forallb writable parts = true ->
  Forall (fun s => json_safe s = true) (List.map attachment_path parts).
Proof.
  induction parts as [| p parts IH]; [constructor |].
  cbn [forallb List.map]. intros H. apply andb_true_iff in H as [Hp Hps].
  constructor; [| apply IH, Hps].
  unfold writable in Hp. apply andb_true_iff in Hp as [Hp _].
  apply andb_true_iff in Hp as [Hp _]. apply fs_encodable_json_safe, Hp.
Qed.

(** ** Undecodable bytes *)

(** Under the ASCII codec with [errors="replace"], a byte above 127 shows
    as U+FFFD in the text. *)
Lemma ascii_decode_replace_marks (b : list byte) :
  existsb (fun x => 128 <=? Byte.to_N x) b = true ->
  In REPLACEMENT (ascii_decode_replace b).
Proof.
  unfold ascii_decode_replace. induction b as [| x b IH]; [discriminate |].
  cbn [existsb List.map]. intros H. apply orb_true_iff in H as [H | H].
  - left. apply N.leb_le in H.
    destruct (N.ltb_spec (Byte.to_N x) 128); [lia | reflexivity].
  - right. apply IH, H.
Qed.

(** ** The claims of the specification *)

Section Claims.

Variable message_from_bytes : list byte -> option message.
Variable decode : list N -> list byte -> option (list N).
Variable resolve : list N -> list N.
Variable db_of_bytes : list byte -> table.
Variable open_fails : world -> list N -> bool.
Variable sqlite_fails : world -> bool.

Local Abbreviation is_database := (is_database resolve).
Local Abbreviation store := (store resolve db_of_bytes).
Local Abbreviation file_holds := (file_holds resolve db_of_bytes).
Local Abbreviation write_all := (write_all resolve db_of_bytes).
Local Abbreviation spares_database := (spares_database resolve).
Local Abbreviation walk_step := (walk_step decode resolve db_of_bytes open_fails).
Local Abbreviation handle_DATA :=
  (handle_DATA message_from_bytes decode resolve db_of_bytes open_fails sqlite_fails).
Local Abbreviation part_text := (part_text decode).
Local Abbreviation message_body := (message_body decode).
Local Abbreviation message_record := (message_record decode).
Local Abbreviation deliverable := (deliverable decode resolve db_of_bytes).
Local Abbreviation delivered := (delivered decode resolve db_of_bytes).

(** The attachments column of a deliverable message decodes to its list
    of paths. *)
Lemma deliverable_attachments_load envelope msg w :
  deliverable envelope msg w = true ->
  load_attachments (json_dumps (message_attachments msg))
  = Some (message_attachments msg).
Proof.
  unfold deliverable. intros H.
  apply andb_true_iff in H as [H _]. apply andb_true_iff in H as [H _].
  apply load_attachments_dumps. unfold message_attachments.
  apply writable_paths_safe, H.
Qed.

(** Every attachment part of a deliverable message has a payload. *)
Lemma deliverable_payload envelope msg w a :
  deliverable envelope msg w = true ->
  a ∈ attachment_parts msg ->
  exists b, get_payload_decode a = Some b.
Proof.
  unfold deliverable. intros H Ha.
  apply andb_true_iff in H as [H _]. apply andb_true_iff in H as [H _].
  rewrite forallb_forall in H. specialize (H a (proj1 (list_elem_of_In _ _) Ha)).
  unfold writable in H. apply andb_true_iff in H as [_ H].
  destruct (get_payload_decode a) as [b |]; [eauto | discriminate].
Qed.

Lemma deliverable_writable envelope msg w a :
  deliverable envelope msg w = true ->
  a ∈ attachment_parts msg ->
  fs_encodable (attachment_path a) = true /\ has_nul (attachment_path a) = false.
Proof.
  unfold deliverable. intros H Ha.
  apply andb_true_iff in H as [H _]. apply andb_true_iff in H as [H _].
  rewrite forallb_forall in H. specialize (H a (proj1 (list_elem_of_In _ _) Ha)).
  unfold writable in H. apply andb_true_iff in H as [H _].
  apply andb_true_iff in H as [H1 H2]. apply negb_true_iff in H2. auto.
Qed.

(** The last row of a table is in its listing. *)
Lemma last_row_listed (t : table) (r : row) :
  last (rows t) = Some r -> r ∈ select_order_by_id_desc t.
Proof.
  intros H. rewrite select_permutation.
  apply last_Some in H as [l ->]. apply elem_of_app. right. left.
Qed.

(** [msg.get] returns its default when no field has the name. *)
Lemma get_absent (m : message) (name failobj : list N) :
  Forall (fun kv => lower kv.1 <> lower name) (headers (info m)) ->
  get m name failobj = failobj.
Proof.
  unfold get. intros H.
  assert (header_lookup (lower name) (headers (info m)) = None) as ->; [| reflexivity].
  induction H as [| [k v] hs Hk _ IH]; [reflexivity |].
  cbn [header_lookup]. unfold str_eqb.
  rewrite bool_decide_eq_false_2 by exact Hk. exact IH.
Qed.

(** What a message that is not multipart leaves behind. *)
Lemma delivered_leaf envelope msg w :
  is_multipart msg = false ->
  delivered envelope msg w
  = {| files := files w;
       emails := {| rows := rows (emails w) ++
                      [message_record envelope msg w (max_rowid (emails w) + 1)];
                    sqlite_sequence := max_rowid (emails w) + 1 |};
       localtime := localtime w |}.
Proof.
  intros Hleaf. unfold delivered, attachment_parts. rewrite Hleaf. reflexivity.
Qed.

(** A message that is not multipart needs the database only. *)
Lemma handle_DATA_accepts_leaf envelope msg w :
  message_from_bytes (content envelope) = Some msg ->
  is_multipart msg = false ->
  sqlite_fails w = false ->
  deliverable envelope msg w = true ->
  handle_DATA envelope w = (Ok ACCEPTED, delivered envelope msg w).
Proof.
  intros Hparse Hleaf Hsq Hdel.
  rewrite (handle_DATA_parsed _ _ _ _ _ _ _ _ _ Hparse).
  unfold deliverable, attachment_parts in Hdel. rewrite Hleaf in Hdel.
  apply andb_true_iff in Hdel as [Hdel Hmax].
  apply andb_true_iff in Hdel as [_ Hbind].
  cbn [message_record sender recipients subject body date write_all fold_left]
    in Hbind, Hmax.
  assert (Hex : extract decode resolve db_of_bytes open_fails msg w
                = (Ok (message_body msg, []), w)).
  { unfold extract, message_body, part_text. rewrite Hleaf.
    destruct (get_payload_decode msg) as [p |]; [destruct (truthy p) |];
      reflexivity. }
  unfold bind at 1. rewrite Hex. cbn [fst snd]. unfold bind.
  rewrite save_succeeds by assumption.
  rewrite delivered_leaf by exact Hleaf.
  unfold message_record, message_attachments, attachment_parts, ret, set_emails.
  rewrite Hleaf. reflexivity.
Qed.

(** C1, amended. [handle_DATA] answers 550 exactly when
    [email.message_from_bytes] raises, and then nothing is persisted:
    the table, the listing read by the inbox and the files are as they
    were.  A payload the parser reads is never answered 550.  Bytes
    without a header line are such a payload (the parser reads them as a
    message without header fields whose body is the bytes): once the
    database takes the row they are accepted, with the default subject
    and the bytes, decoded, as body. *)
Theorem C1_rejection_only_when_parser_raises envelope w (res : result (list N)) w' :
  handle_DATA envelope w = (res, w') ->
  (res = Ok REJECTED <-> message_from_bytes (content envelope) = None)
  /\ (message_from_bytes (content envelope) = None ->
      startswith (lit "550") REJECTED = true
      /\ select_order_by_id_desc (emails w') = select_order_by_id_desc (emails w)
      /\ inbox w' = inbox w
      /\ files w' = files w)
  /\ (message_from_bytes (content envelope) = Some (headerless (content envelope)) ->
      sqlite_fails w = false ->
      deliverable envelope (headerless (content envelope)) w = true ->
      res = Ok ACCEPTED
      /\ files w' = files w
      /\ exists r,
          rows (emails w') = rows (emails w) ++ [r]
          /\ sender r = mail_from envelope
          /\ subject r = lit "(No Subject)"
          /\ attachments r = lit "[]"
          /\ body r =
             match content envelope with
             | [] => []
             | _ :: _ =>
               match decode (lit "utf-8") (content envelope) with
               | Some text => text
               | None => bytes_repr (content envelope)
               end
             end).
Proof.
  intros Hrun. split; [| split].
  - split.
    + intros ->.
      destruct (message_from_bytes (content envelope)) as [msg |] eqn:Hparse;
        [| reflexivity].
      destruct (handle_DATA_outcome _ _ _ _ _ _ _ _ _ _ _ Hparse Hrun)
        as [(Hres & _) | (e & He & _)]; discriminate.
    + intros Hparse.
      rewrite (handle_DATA_unparsed _ _ _ _ _ _ _ _ Hparse) in Hrun.
      inversion Hrun. reflexivity.
  - intros Hparse.
    rewrite (handle_DATA_unparsed _ _ _ _ _ _ _ _ Hparse) in Hrun.
    inversion Hrun; subst. repeat split.
  - intros Hparse Hsq Hd.
    rewrite (handle_DATA_accepts_leaf _ _ _ Hparse eq_refl Hsq Hd) in Hrun.
    inversion Hrun; subst res w'. rewrite delivered_leaf by reflexivity.
    split; [reflexivity |]. split; [reflexivity |].
    eexists. split; [reflexivity |].
    cbn [message_record sender subject attachments body].
    repeat split.
    unfold message_body, part_text, decode_payload. cbn.
    destruct (content envelope); reflexivity.
Qed.


(** C4. Along any run of successful appends, every new row gets an id
    above all ids assigned before it (those of the rows already there,
    the counter of the table, and the earlier appends of the run); the
    listing is strictly descending by id; and it shows every row, the
    new ones included. *)
Theorem C4_ids_increase_listing_newest_first ps w w' :
  NoDup (id <$> rows (emails w)) ->
  append_all sqlite_fails ps w = (Ok tt, w') ->
  exists new,
    rows (emails w') = rows (emails w) ++ new
    /\ Forall2 (fun p r => r = record_of p (id r)) ps new
    /\ StronglySorted id_lt new
    /\ Forall (fun r => (sqlite_sequence (emails w) < id r)%Z
                        /\ forall r0, r0 ∈ rows (emails w) -> id_lt r0 r) new
    /\ StronglySorted (flip id_lt) (select_order_by_id_desc (emails w'))
    /\ Forall (fun r => r ∈ select_order_by_id_desc (emails w'))
              (rows (emails w) ++ new).
Proof.
  intros Hnd Hrun.
  apply append_all_rows in Hrun as (new & Hrows & Hrec & Hsorted & Hgt & _).
  assert (Hold : Forall (fun r => (sqlite_sequence (emails w) < id r)%Z
                        /\ forall r0, r0 ∈ rows (emails w) -> id_lt r0 r) new).
  { eapply Forall_impl; [exact Hgt |]. cbn beta. intros r Hr. split.
    - pose proof (max_rowid_ge_sequence (emails w)). lia.
    - intros r0 Hr0. apply max_rowid_ge_id in Hr0. unfold id_lt. lia. }
  exists new. repeat split; try assumption.
  - apply select_strictly_descending. rewrite Hrows, fmap_app.
    apply NoDup_app. split; [exact Hnd |]. split.
    + intros i Hi Hi'.
      apply list_elem_of_fmap in Hi as (r0 & -> & Hr0).
      apply list_elem_of_fmap in Hi' as (r & Heq & Hr).
      pose proof (proj1 (Forall_forall _ _) Hold r Hr) as [_ Hlt].
      specialize (Hlt r0 Hr0). unfold id_lt in Hlt. lia.
    + clear -Hsorted. induction Hsorted as [| r l Hl IH Hall]; [constructor |].
      cbn. apply NoDup_cons. split; [| exact IH].
      intros Hin. apply list_elem_of_fmap in Hin as (r' & Heq & Hr').
      pose proof (proj1 (Forall_forall _ _) Hall r' Hr') as Hlt.
      unfold id_lt in Hlt. lia.
  - apply Forall_forall. intros r Hr.
    rewrite select_permutation, Hrows. exact Hr.
Qed.





(** C9. A body part whose payload is missing or empty leaves the body
    and the attachment list as they are, without error.  A message that
    is not multipart and has such a payload is accepted, once the
    database takes the row, with an empty body and an empty attachment
    list, and no file is written. *)
Theorem C9_empty_payload_adds_nothing :
  (forall part body atts w,
      is_body_part part = true ->
      get_payload_decode part = None \/ get_payload_decode part = Some [] ->
      walk_step part body atts w = (Ok (body, atts), w))
  /\ (forall envelope msg w,
         message_from_bytes (content envelope) = Some msg ->
         is_multipart msg = false ->
         get_payload_decode msg = None \/ get_payload_decode msg = Some [] ->
         sqlite_fails w = false ->
         deliverable envelope msg w = true ->
         exists w' r,
           handle_DATA envelope w = (Ok ACCEPTED, w')
           /\ rows (emails w') = rows (emails w) ++ [r]
           /\ body r = []
           /\ attachments r = lit "[]"
           /\ load_attachments (attachments r) = Some []
           /\ files w' = files w).
Proof.
  split.
  - intros part body atts w Hb Hp. rewrite walk_step_body by exact Hb.
    unfold part_text.
    destruct Hp as [-> | ->]; rewrite app_nil_r; reflexivity.
  - intros envelope msg w Hparse Hleaf Hp Hsq Hd.
    exists (delivered envelope msg w). eexists.
    split; [apply handle_DATA_accepts_leaf; assumption |].
    rewrite delivered_leaf by exact Hleaf.
    split; [reflexivity |].
    cbn [message_record body attachments files].
    unfold message_body, message_attachments, attachment_parts,
      part_text.
    rewrite Hleaf. destruct Hp as [-> | ->]; repeat split.
Qed.


End Claims.

(** ** The claims on concrete messages *)

(** C1 as worded fails on bytes that are no message: the parser does not
    raise on them, it reads them as a body without header fields; the
    handler answers 250 and stores a row. *)
Lemma C1_counterexample :
  ex_parser (content (ex_envelope "garbage"))
  = Some (headerless (list_byte_of_string "garbage"))
  /\ fst (ex_handle "garbage" ex_world) = Ok ACCEPTED
  /\ is_rejection ACCEPTED = false
  /\ rows (emails ex_world) = []
  /\ List.map body (rows (emails (snd (ex_handle "garbage" ex_world))))
     = [lit "garbage"].
Proof. vm_compute. repeat split. Qed.

(** C1, amended, on those bytes. *)
Lemma C1_witness :
  fst (ex_handle "garbage" ex_world) = Ok ACCEPTED
  /\ (fst (ex_handle "garbage" ex_world) = Ok REJECTED
      <-> ex_parser (content (ex_envelope "garbage")) = None)
  /\ exists r,
      rows (emails (snd (ex_handle "garbage" ex_world))) = rows (emails ex_world) ++ [r]
      /\ subject r = lit "(No Subject)"
      /\ body r = lit "garbage".
Proof.
  destruct (C1_rejection_only_when_parser_raises ex_parser python_decode ex_resolve
              ex_db_of_bytes no_open_fault no_sqlite_fault (ex_envelope "garbage")
              ex_world (fst (ex_handle "garbage" ex_world))
              (snd (ex_handle "garbage" ex_world)))
    as (Hiff & _ & H).
  - vm_compute; reflexivity.
  - destruct H as (Hres & _ & r & Hrows & _ & Hsubject & _ & Hbody).
    + reflexivity.
    + reflexivity.
    + vm_compute; reflexivity.
    + split; [exact Hres |]. split; [exact Hiff |].
      exists r. split; [exact Hrows |]. split; [exact Hsubject |].
      rewrite Hbody. vm_compute. reflexivity.
Defined.



(** C3. The code at the failing input, a body in a declared character
    set Python does not know: the claim gives the UTF-8 decoding ("hi"),
    the [except] branch stores [str(payload)], the text b'hi'. *)
Theorem C3_except_branch_stores_repr :
  get_content_charset ex_unknown_charset = Some (lit "x-unknown-charset")
  /\ get_payload_decode ex_unknown_charset = Some (list_byte_of_string "hi")
  /\ python_decode (lit "x-unknown-charset") (list_byte_of_string "hi") = None
  /\ fst (ex_handle "unknown-charset" ex_world) = Ok ACCEPTED
  /\ List.map body (rows (emails (snd (ex_handle "unknown-charset" ex_world))))
     = [lit "b'hi'"]
  /\ decode_payload python_decode ex_unknown_charset (list_byte_of_string "hi")
     = bytes_repr (list_byte_of_string "hi")
  /\ spec_decode_payload python_decode ex_unknown_charset (list_byte_of_string "hi")
     = lit "hi".
Proof. vm_compute. repeat split. Qed.

(** Where the code does what C3 says: bytes that are not ASCII under a
    declared [us-ascii] do not stop the message, and the body stored
    carries U+FFFD in their place. *)
Example bad_ascii_run :
  fst (ex_handle "bad-ascii" ex_world) = Ok ACCEPTED
  /\ List.map body (rows (emails (snd (ex_handle "bad-ascii" ex_world))))
     = [[72; REPLACEMENT; 105]]
  /\ In REPLACEMENT (ascii_decode_replace [x48; xff; x69]%byte).
Proof.
  split; [vm_compute; reflexivity |]. split; [vm_compute; reflexivity |].
  apply ascii_decode_replace_marks. reflexivity.
Qed.

(** C4 on two appends to the empty table. *)
Lemma C4_witness :
  exists new,
    rows (emails (snd (append_all no_sqlite_fault ex_appends ex_world)))
    = rows (emails ex_world) ++ new
    /\ List.map id new = [1; 2]%Z
    /\ List.map id (select_order_by_id_desc
                      (emails (snd (append_all no_sqlite_fault ex_appends ex_world))))
       = [2; 1]%Z.
Proof.
  destruct (C4_ids_increase_listing_newest_first no_sqlite_fault ex_appends ex_world
              (snd (append_all no_sqlite_fault ex_appends ex_world)))
    as (new & Hrows & _).
  - apply NoDup_nil_2.
  - vm_compute; reflexivity.
  - exists new. split; [exact Hrows |].
    cbn [app ex_world emails init_db empty_table rows] in Hrows.
    rewrite <- Hrows. vm_compute. split; reflexivity.
Defined.







(** C9 on a message that is not multipart and has an empty payload. *)
Lemma C9_witness :
  exists w' r,
    ex_handle "bare" ex_world = (Ok ACCEPTED, w')
    /\ rows (emails w') = rows (emails ex_world) ++ [r]
    /\ body r = []
    /\ attachments r = lit "[]"
    /\ load_attachments (attachments r) = Some []
    /\ files w' = files ex_world.
Proof.
  apply (proj2 (C9_empty_payload_adds_nothing ex_parser python_decode ex_resolve
                  ex_db_of_bytes no_open_fault no_sqlite_fault)
           (ex_envelope "bare") ex_bare ex_world).
  - reflexivity.
  - reflexivity.
  - right. reflexivity.
  - reflexivity.
  - vm_compute; reflexivity.
Defined.


(** * Further properties of the handler and of the inbox *)

(** [msg.get] returns the value of the first field that bears the name. *)
Lemma get_present (m : message) (name failobj : list N) pre k v post :
  headers (info m) = pre ++ (k, v) :: post ->
  lower k = lower name ->
  Forall (fun kv => lower kv.1 <> lower name) pre ->
  get m name failobj = v.
Proof.
  unfold get. intros -> Hk Hpre.
  assert (header_lookup (lower name) (pre ++ (k, v) :: post) = Some v) as ->;
    [| reflexivity].
  induction Hpre as [| [k0 v0] pre Hk0 _ IH]; cbn [app header_lookup]; unfold str_eqb.
  - rewrite bool_decide_eq_true_2 by exact Hk. reflexivity.
  - rewrite bool_decide_eq_false_2 by exact Hk0. exact IH.
Qed.

(** [str(payload)] is ASCII, whatever the bytes. *)
Lemma repr_byte_ascii (q : N) (x : byte) :
  q < 128 -> ascii_only (repr_byte q (Byte.to_N x)).
Proof.
  intros Hq. pose proof (Byte.to_N_bounded x) as Hx.
  unfold repr_byte, ascii_only.
  set (c := Byte.to_N x) in *. clearbody c.
  assert (Hd : c / 16 < 16) by (apply N.Div0.div_lt_upper_bound; lia).
  assert (Hm : c mod 16 < 16) by (apply N.mod_lt; discriminate).
  revert Hd Hm. generalize (c / 16) (c mod 16). intros d m Hd Hm.
  destruct ((c =? q) || (c =? 92)) eqn:E1.
  { apply orb_true_iff in E1 as [E | E]; apply N.eqb_eq in E; subst;
      repeat (apply Forall_cons; split; [lia |]); apply Forall_nil_2. }
  destruct (c =? 9); [repeat (apply Forall_cons; split; [lia |]); apply Forall_nil_2 |].
  destruct (c =? 10); [repeat (apply Forall_cons; split; [lia |]); apply Forall_nil_2 |].
  destruct (c =? 13); [repeat (apply Forall_cons; split; [lia |]); apply Forall_nil_2 |].
  destruct ((c <? 32) || (127 <=? c)) eqn:E2.
  - repeat (apply Forall_cons; split;
            [first [lia | apply hexdigit_ascii; assumption] |]).
    apply Forall_nil_2.
  - apply orb_false_iff in E2 as [_ E2]. apply N.leb_gt in E2.
    apply Forall_cons; split; [lia | apply Forall_nil_2].
Qed.

Lemma bytes_repr_ascii (b : list byte) : ascii_only (bytes_repr b).
Proof.
  unfold bytes_repr.
  assert (Hq : repr_quote b < 128).
  { unfold repr_quote. destruct (_ && _); lia. }
  generalize dependent (repr_quote b). intros q Hq.
  apply ascii_only_app; [repeat (apply Forall_cons; split; [lia |]); apply Forall_nil_2 |].
  apply ascii_only_app; [| apply Forall_cons; split; [lia | apply Forall_nil_2]].
  induction b as [| x b IH]; [apply Forall_nil_2 |].
  cbn [List.flat_map]. apply ascii_only_app; [apply repr_byte_ascii, Hq | exact IH].
Qed.

(** [needle in hay] holds exactly when [hay] has [needle] as a contiguous
    part. *)
Lemma startswith_iff (p s : list N) :
  startswith p s = true <-> exists post, s = p ++ post.
Proof.
  revert s. induction p as [| a p IH]; intros s; cbn [startswith].
  - split; [intros _; exists s; reflexivity | reflexivity].
  - destruct s as [| b s]; [split; [discriminate | intros [post H]; discriminate] |].
    rewrite andb_true_iff, N.eqb_eq, IH. split.
    + intros [-> [post ->]]. exists post. reflexivity.
    + intros [post H]. cbn [app] in H. inversion H; subst. eauto.
Qed.

Lemma contains_iff (needle hay : list N) :
  contains needle hay = true <-> exists pre post, hay = pre ++ needle ++ post.
Proof.
  induction hay as [| c hay IH]; cbn [contains]; rewrite orb_true_iff, startswith_iff.
  - split.
    + intros [[post H] | H]; [exists [], post; exact H | discriminate].
    + intros (pre & post & H). left. destruct pre; [eauto |]. discriminate.
  - rewrite IH. split.
    + intros [[post H] | (pre & post & H)].
      * exists [], post. exact H.
      * exists (c :: pre), post. rewrite H. reflexivity.
    + intros (pre & post & H). destruct pre as [| c' pre].
      * left. exists post. exact H.
      * right. cbn [app] in H. inversion H; subst. eauto.
Qed.

(** Rows with distinct ids are told apart by their id. *)
Lemma nodup_id_inj (l : list row) (x1 x2 : row) :
  NoDup (id <$> l) -> x1 ∈ l -> x2 ∈ l -> id x1 = id x2 -> x1 = x2.
Proof.
  induction l as [| x l IH]; intros Hnd H1 H2 Heq; [inversion H1 |].
  cbn in Hnd. apply NoDup_cons in Hnd as [Hnotin Hnd].
  apply elem_of_cons in H1 as [-> | H1]; apply elem_of_cons in H2 as [-> | H2].
  - reflexivity.
  - exfalso. apply Hnotin. rewrite Heq. apply list_elem_of_fmap_2. exact H2.
  - exfalso. apply Hnotin. rewrite <- Heq. apply list_elem_of_fmap_2. exact H1.
  - apply IH; assumption.
Qed.

(** A row whose id is above all others comes first in the listing. *)
Lemma select_after_insert (t : table) (r : row) (i : Z) :
  NoDup (id <$> rows t) ->
  (forall x, x ∈ rows t -> (id x < id r)%Z) ->
  select_order_by_id_desc {| rows := rows t ++ [r]; sqlite_sequence := i |}
  = r :: select_order_by_id_desc t.
Proof.
  intros Hnd Hmax. symmetry.
  apply (StronglySorted_unique_strong id_desc).
  - intros x1 x2 H1 H2 H12 H21. unfold id_desc in H12, H21.
    assert (Heq : id x1 = id x2) by lia.
    rewrite select_permutation in H2. cbn [rows] in H2.
    apply elem_of_cons in H1 as [-> | H1];
      [| rewrite select_permutation in H1];
      apply elem_of_app in H2 as [H2 | H2];
      try (apply list_elem_of_singleton in H2; subst x2);
      try reflexivity.
    + specialize (Hmax x2 H2). lia.
    + apply (nodup_id_inj (rows t)); assumption.
    + specialize (Hmax x1 H1). lia.
  - constructor; [apply select_descending |].
    apply Forall_forall. intros x Hx. rewrite select_permutation in Hx.
    specialize (Hmax x Hx). unfold id_desc. lia.
  - apply select_descending.
  - rewrite !select_permutation. cbn [rows].
    rewrite (Permutation_app_comm (rows t) [r]). reflexivity.
Qed.

(** The listing is read row by row. *)
Lemma views_cons (r : row) (rs : list row) (v : email_view) (vs : list email_view) :
  view_row r = Some v -> views rs = Some vs -> views (r :: rs) = Some (v :: vs).
Proof. intros Hr Hrs. cbn [views]. rewrite Hr, Hrs. reflexivity. Qed.

(** [get_pw] answers by the dictionary. *)
Lemma get_pw_lookup (username : list N) : get_pw username = users !! username.
Proof.
  unfold get_pw. destruct (users !! username) as [p |] eqn:H.
  - rewrite bool_decide_eq_true_2 by eauto. reflexivity.
  - rewrite bool_decide_eq_false_2; [reflexivity |]. intros [p Hp]. discriminate.
Qed.

(** X10. [get_pw] knows one account: it returns a password exactly for
    the user name "admin", spelled so, and the password is "secret"; any
    other name, a differently capitalised one included, gets [None]. *)
Theorem X10_get_pw_knows_admin_only (username : list N) :
  (forall p, get_pw username = Some p <-> username = lit "admin" /\ p = lit "secret")
  /\ (get_pw username = None <-> username <> lit "admin").
Proof.
  rewrite get_pw_lookup. unfold users. rewrite lookup_singleton.
  destruct (decide (lit "admin" = username)) as [<- | Hne]; split.
  - intros p. split; [intros [= <-]; auto | intros [_ ->]; reflexivity].
  - split; [discriminate | congruence].
  - intros p. split; [discriminate | intros [-> _]; congruence].
  - split; [congruence | reflexivity].
Qed.

Section Extras.

Variable message_from_bytes : list byte -> option message.
Variable decode : list N -> list byte -> option (list N).
Variable resolve : list N -> list N.
Variable db_of_bytes : list byte -> table.
Variable open_fails : world -> list N -> bool.
Variable sqlite_fails : world -> bool.

Local Abbreviation is_database := (is_database resolve).
Local Abbreviation store := (store resolve db_of_bytes).
Local Abbreviation file_holds := (file_holds resolve db_of_bytes).
Local Abbreviation write_all := (write_all resolve db_of_bytes).
Local Abbreviation reached := (reached resolve db_of_bytes).
Local Abbreviation spares_database := (spares_database resolve).
Local Abbreviation open_wb := (open_wb resolve db_of_bytes open_fails).
Local Abbreviation write := (write resolve db_of_bytes).
Local Abbreviation walk_step := (walk_step decode resolve db_of_bytes open_fails).
Local Abbreviation walk_loop := (walk_loop decode resolve db_of_bytes open_fails).
Local Abbreviation extract := (extract decode resolve db_of_bytes open_fails).
Local Abbreviation handle_DATA :=
  (handle_DATA message_from_bytes decode resolve db_of_bytes open_fails sqlite_fails).
Local Abbreviation deliver_all :=
  (deliver_all message_from_bytes decode resolve db_of_bytes open_fails sqlite_fails).
Local Abbreviation session_spares_database :=
  (session_spares_database message_from_bytes resolve).
Local Abbreviation part_text := (part_text decode).
Local Abbreviation message_body := (message_body decode).
Local Abbreviation message_record := (message_record decode).
Local Abbreviation deliverable := (deliverable decode resolve db_of_bytes).
Local Abbreviation delivered := (delivered decode resolve db_of_bytes).


(** X2. A message that is not multipart never yields an attachment, even
    when its own Content-Disposition says "attachment" and names a file:
    no file is written, the attachments column is the empty list, and its
    payload is stored as body text. *)
Theorem X2_single_part_is_body envelope msg w reply w' :
  message_from_bytes (content envelope) = Some msg ->
  is_multipart msg = false ->
  handle_DATA envelope w = (Ok reply, w') ->
  files w' = files w
  /\ exists r,
      rows (emails w') = rows (emails w) ++ [r]
      /\ attachments r = lit "[]"
      /\ body r =
         match get_payload_decode msg with
         | Some payload =>
           if truthy payload then decode_payload decode msg payload else []
         | None => []
         end.
Proof.
  intros Hparse Hleaf Hrun.
  destruct (handle_DATA_replied _ _ _ _ _ _ _ _ _ _ _ Hparse Hrun) as (_ & -> & _).
  rewrite delivered_leaf by exact Hleaf.
  unfold message_record, message_attachments, attachment_parts, message_body.
  rewrite Hleaf. cbn [files emails rows].
  split; [reflexivity |]. eexists. split; [reflexivity |].
  split; reflexivity.
Qed.




(** X11. When decoding the payload of a message that is not multipart
    raises (an unknown character set, for one), the body stored is
    [str(payload)]: the text b'...' with escapes, which is pure ASCII.  The
    message is accepted as soon as the database takes the row. *)
Theorem X11_undecodable_body_is_repr envelope msg w payload :
  message_from_bytes (content envelope) = Some msg ->
  is_multipart msg = false ->
  get_payload_decode msg = Some payload ->
  payload <> [] ->
  decode (match get_content_charset msg with
          | Some c => if truthy c then c else lit "utf-8"
          | None => lit "utf-8"
          end) payload = None ->
  sqlite_fails w = false ->
  forallb bindable
    [get msg (lit "From") (mail_from envelope);
     get msg (lit "To") (join (lit ", ") (rcpt_tos envelope));
     get msg (lit "Subject") (lit "(No Subject)");
     get msg (lit "Date") (strftime_Ymd_HMS (localtime w))] = true ->
  (max_rowid (emails w) < MAX_ROWID)%Z ->
  exists w' r,
    handle_DATA envelope w = (Ok ACCEPTED, w')
    /\ rows (emails w') = rows (emails w) ++ [r]
    /\ body r = bytes_repr payload
    /\ ascii_only (body r)
    /\ startswith [98] (body r) = true.
Proof.
  intros Hparse Hleaf Hpay Hne Hdec Hsq Hbind Hmax.
  assert (Hbody : message_body msg = bytes_repr payload).
  { unfold message_body, part_text, decode_payload.
    rewrite Hleaf, Hpay, Hdec. destruct payload; [congruence | reflexivity]. }
  assert (Hd : deliverable envelope msg w = true).
  { unfold deliverable, attachment_parts. rewrite Hleaf.
    cbn [forallb message_record sender recipients subject body date andb
         write_all fold_left] in Hbind |- *.
    rewrite Hbody.
    apply andb_true_iff in Hbind as [H1 Hbind].
    apply andb_true_iff in Hbind as [H2 Hbind].
    apply andb_true_iff in Hbind as [H3 Hbind].
    apply andb_true_iff in Hbind as [H4 _].
    rewrite H1, H2, H3, H4, (ascii_bindable _ (bytes_repr_ascii payload)).
    cbn [andb]. apply Z.ltb_lt. exact Hmax. }
  exists (delivered envelope msg w). eexists.
  split; [apply handle_DATA_accepts_leaf; assumption |].
  rewrite delivered_leaf by exact Hleaf.
  split; [reflexivity |]. cbn [message_record body].
  rewrite Hbody. split; [reflexivity |]. split; [apply bytes_repr_ascii | reflexivity].
Qed.

(** What [handle_DATA] does to the world, whatever its outcome: writes
    through the paths of the attachment parts, and then at most the
    insert. *)
Lemma handle_DATA_reached envelope w (res : result (list N)) w' :
  handle_DATA envelope w = (res, w') ->
  exists w1 paths,
    reached paths w w1
    /\ (forall p, p ∈ paths ->
          exists msg a, message_from_bytes (content envelope) = Some msg
                        /\ a ∈ attachment_parts msg /\ attachment_path a = p)
    /\ files w' = files w1
    /\ (emails w' = emails w1 \/ exists r, rows (emails w') = rows (emails w1) ++ [r]).
Proof.
  intros Hrun.
  destruct (message_from_bytes (content envelope)) as [msg |] eqn:Hparse.
  - assert (Hpaths : forall p, p ∈ message_attachments msg ->
              exists msg0 a, Some msg = Some msg0
                             /\ a ∈ attachment_parts msg0 /\ attachment_path a = p).
    { intros p Hp. unfold message_attachments in Hp.
      apply list_elem_of_fmap in Hp as (a & -> & Ha). eauto. }
    destruct (handle_DATA_outcome _ _ _ _ _ _ _ _ _ _ _ Hparse Hrun)
      as [(_ & -> & _) | (e & _ & Hreach)].
    + exists (write_all (attachment_parts msg) w), (message_attachments msg).
      split; [apply write_all_reached |]. split; [exact Hpaths |].
      split; [reflexivity |]. right. eexists. reflexivity.
    + exists w', (message_attachments msg). auto.
  - rewrite (handle_DATA_unparsed _ _ _ _ _ _ _ _ Hparse) in Hrun.
    inversion Hrun; subst. exists w', []. split; [apply reached_refl |].
    split; [intros p Hp; inversion Hp | auto].
Qed.


(** The loop stops at the first attachment part that has no payload to
    write: the parts before it are on disk, its own file was created and
    is empty, and the parts after it were not looked at. *)
Lemma walk_loop_stops parts : forall before bad after body atts w,
  (forall w0 p, open_fails w0 p = false) ->
  List.filter is_attachment_part parts = before ++ bad :: after ->
  forallb writable before = true ->
  fs_encodable (attachment_path bad) = true ->
  has_nul (attachment_path bad) = false ->
  get_payload_decode bad = None ->
  walk_loop parts body atts w
  = (Raise TypeError, store (attachment_path bad) [] (write_all before w)).
Proof.
  induction parts as [| part parts IH];
    intros before bad after body atts w Hfs Hsplit Hwr Henc Hnul Hpay.
  - destruct before; discriminate.
  - cbn [walk_loop]. unfold bind at 1. cbn [List.filter] in Hsplit.
    destruct (part_classes part) as [Hc | [Ha | [Hb | (Hc & Hd & Hf)]]].
    + rewrite walk_step_container by exact Hc.
      rewrite (container_not_attachment _ Hc) in Hsplit. eapply IH; eassumption.
    + rewrite walk_step_attachment by exact Ha. rewrite Ha in Hsplit.
      destruct before as [| x before]; cbn [app] in Hsplit;
        inversion Hsplit; subst.
      * unfold bind, open_wb, write. rewrite Henc, Hnul, Hfs, Hpay.
        reflexivity.
      * cbn [forallb] in Hwr. apply andb_true_iff in Hwr as [Hwx Hwr].
        unfold writable in Hwx.
        apply andb_true_iff in Hwx as [Hwx Hpx].
        apply andb_true_iff in Hwx as [Hex Hnx]. apply negb_true_iff in Hnx.
        destruct (get_payload_decode x) as [b |] eqn:Hb; [| discriminate].
        unfold bind, open_wb, write, ret. rewrite Hex, Hnx, Hfs. cbn [negb fst snd].
        erewrite IH; try eassumption.
        rewrite write_all_cons, Hb. cbn [default]. rewrite store_store. reflexivity.
    + rewrite walk_step_body by exact Hb.
      rewrite (body_not_attachment _ Hb) in Hsplit. eapply IH; eassumption.
    + rewrite walk_step_unnamed by assumption.
      rewrite (unnamed_not_attachment _ Hf) in Hsplit. eapply IH; eassumption.
Qed.


(** The row of a deliverable message is read back as its view. *)
Lemma view_row_message_record envelope msg w i :
  deliverable envelope msg w = true ->
  view_row (message_record envelope msg w i)
  = Some (message_view decode envelope msg (localtime w)).
Proof.
  intros Hd. unfold view_row. cbn [message_record attachments].
  rewrite (deliverable_attachments_load _ _ _ _ _ _ Hd). reflexivity.
Qed.

(** Acceptance puts the view of the message on top of the inbox, and
    keeps the ids distinct. *)
Lemma inbox_after_accept envelope msg w reply w' vs :
  NoDup (id <$> rows (emails w)) ->
  inbox w = Some vs ->
  message_from_bytes (content envelope) = Some msg ->
  spares_database msg = true ->
  handle_DATA envelope w = (Ok reply, w') ->
  inbox w' = Some (message_view decode envelope msg (localtime w) :: vs)
  /\ NoDup (id <$> rows (emails w')).
Proof.
  intros Hnd Hinbox Hparse Hsp Hrun.
  destruct (handle_DATA_replied _ _ _ _ _ _ _ _ _ _ _ Hparse Hrun) as (_ & -> & Hd).
  rewrite (delivered_rows _ _ _ _ _ _ Hsp).
  assert (Hmax : forall x, x ∈ rows (emails w) ->
                   (id x < id (message_record envelope msg w
                                 (max_rowid (emails w) + 1)))%Z).
  { intros x Hx. apply max_rowid_ge_id in Hx. cbn [message_record id]. lia. }
  split.
  - unfold inbox. cbn [emails].
    rewrite select_after_insert by assumption.
    apply views_cons; [apply view_row_message_record, Hd | exact Hinbox].
  - cbn [emails rows]. rewrite fmap_app.
    apply NoDup_app. split; [exact Hnd |]. split.
    + intros i Hi Hi'. apply list_elem_of_fmap in Hi as (x & -> & Hx).
      apply list_elem_of_singleton in Hi'. specialize (Hmax x Hx). lia.
    + apply NoDup_singleton.
Qed.


(** A session adds to the inbox the views of the accepted messages, the
    latest first. *)
Lemma deliver_all_inbox arrivals : forall w outs w' vs,
  NoDup (id <$> rows (emails w)) ->
  inbox w = Some vs ->
  session_spares_database arrivals = true ->
  deliver_all arrivals w = (outs, w') ->
  inbox w' = Some (rev (accepted_views message_from_bytes decode arrivals outs) ++ vs).
Proof.
  induction arrivals as [| [now e] es IH]; intros w outs w' vs Hnd Hinbox Hsp Hrun.
  - inversion Hrun; subst. exact Hinbox.
  - cbn [deliver_all] in Hrun.
    cbn [session_spares_database forallb snd] in Hsp.
    apply andb_true_iff in Hsp as [Hsp1 Hsp].
    destruct (handle_DATA e (set_localtime now w)) as [r w1] eqn:Hstep.
    destruct (deliver_all es w1) as [rs w2] eqn:Hrest.
    inversion Hrun; subst outs w'. cbn [accepted_views].
    destruct (message_from_bytes (content e)) as [msg |] eqn:Hparse.
    + destruct (handle_DATA_outcome _ _ _ _ _ _ _ _ _ _ _ Hparse Hstep)
        as [(-> & Hw1 & Hd & _) | (ex & -> & Hreach)].
      * destruct (inbox_after_accept e msg (set_localtime now w) _ _ vs
                    Hnd Hinbox Hparse Hsp1 Hstep)
          as [Hinbox1 Hnd1].
        cbn [localtime set_localtime] in Hinbox1.
        rewrite (IH _ _ _ _ Hnd1 Hinbox1 Hsp Hrest).
        cbn [is_accepted]. unfold str_eqb.
        rewrite bool_decide_eq_true_2 by reflexivity.
        rewrite rev_app_distr. cbn [rev app]. rewrite <- !app_assoc. reflexivity.
      * cbn [is_accepted app].
        assert (Hem : emails w1 = emails w).
        { rewrite (reached_emails _ _ _ _ _ Hreach); [reflexivity |].
          apply spares_database_paths, Hsp1. }
        assert (Hinbox1 : inbox w1 = Some vs) by (unfold inbox; rewrite Hem; exact Hinbox).
        rewrite <- Hem in Hnd.
        exact (IH _ _ _ _ Hnd Hinbox1 Hsp Hrest).
    + rewrite (handle_DATA_unparsed _ _ _ _ _ _ _ _ Hparse) in Hstep.
      inversion Hstep; subst r w1.
      rewrite (IH (set_localtime now w) _ _ vs Hnd Hinbox Hsp Hrest).
      destruct (is_accepted (Ok REJECTED)); reflexivity.
Qed.



(** X13. The test on the disposition is a case-sensitive search for the
    letters "attachment" anywhere in the value of the field.  A leaf
    part that names a file is written to that file and listed when they
    occur there, be it in a parameter of an inline part, and nothing is
    added to the body; it is decoded into the body, and no file is
    written, when they do not. *)
Theorem X13_disposition_is_substring_test part f body atts w :
  is_container_part part = false ->
  get_filename part = Some f -> f <> [] ->
  ((exists pre post,
       get part (lit "Content-Disposition") [] = pre ++ lit "attachment" ++ post) ->
   walk_step part body atts w =
   (open_wb (path_join ATTACHMENTS_DIR f) ;;;
    write (path_join ATTACHMENTS_DIR f) (get_payload_decode part) ;;;
    ret (body, atts ++ [path_join ATTACHMENTS_DIR f])) w)
  /\ (~ (exists pre post,
           get part (lit "Content-Disposition") [] = pre ++ lit "attachment" ++ post) ->
      walk_step part body atts w = (Ok (body ++ part_text part, atts), w)).
Proof.
  intros Hc Hf Hne.
  assert (Hdecl : declares_filename part = true).
  { unfold declares_filename. rewrite Hf. destruct f; [congruence | reflexivity]. }
  split; intros H.
  - apply contains_iff in H.
    rewrite walk_step_attachment.
    + unfold attachment_path. rewrite Hf. reflexivity.
    + unfold is_attachment_part, has_attachment_disposition.
      rewrite Hc, H, Hdecl. reflexivity.
  - apply walk_step_body. unfold is_body_part, has_attachment_disposition.
    rewrite Hc. cbn [negb andb].
    destruct (contains _ _) eqn:E; [| reflexivity].
    exfalso. apply H. apply contains_iff. exact E.
Qed.

End Extras.

(** ** The further properties on concrete messages *)


(** X2 on a single part marked as an attachment. *)
Lemma X2_witness :
  is_attachment_part ex_single_attachment = true
  /\ files (snd (ex_handle2 "single-attachment" ex_world)) = files ex_world
  /\ exists r,
      rows (emails (snd (ex_handle2 "single-attachment" ex_world)))
      = rows (emails ex_world) ++ [r]
      /\ attachments r = lit "[]"
      /\ body r = lit "PDF".
Proof.
  split; [reflexivity |].
  destruct (X2_single_part_is_body ex_parser2 python_decode ex_resolve ex_db_of_bytes
              no_open_fault no_sqlite_fault (ex_envelope "single-attachment") ex_single_attachment
              ex_world ACCEPTED (snd (ex_handle2 "single-attachment" ex_world)))
    as (Hfiles & r & Hrows & Hatt & Hbody).
  - reflexivity.
  - reflexivity.
  - vm_compute; reflexivity.
  - split; [exact Hfiles |]. exists r. split; [exact Hrows |].
    split; [exact Hatt |]. rewrite Hbody. vm_compute. reflexivity.
Defined.








(** X11 on a declared character set Python does not know. *)
Lemma X11_witness :
  exists w' r,
    ex_handle2 "unknown-charset" ex_world = (Ok ACCEPTED, w')
    /\ rows (emails w') = rows (emails ex_world) ++ [r]
    /\ body r = lit "b'hi'".
Proof.
  destruct (X11_undecodable_body_is_repr ex_parser2 python_decode ex_resolve ex_db_of_bytes
              no_open_fault no_sqlite_fault (ex_envelope "unknown-charset") ex_unknown_charset
              ex_world (list_byte_of_string "hi"))
    as (w' & r & Hrun & Hrows & Hbody & _).
  - reflexivity.
  - reflexivity.
  - reflexivity.
  - discriminate.
  - reflexivity.
  - reflexivity.
  - vm_compute; reflexivity.
  - vm_compute; reflexivity.
  - exists w', r. split; [exact Hrun |]. split; [exact Hrows |].
    rewrite Hbody. vm_compute. reflexivity.
Defined.


(** X13 on an inline part whose file name contains "attachment": the
    loop writes the file and lists it, and the message that holds the
    part is stored with an empty body. *)
Lemma X13_witness :
  walk_step python_decode ex_resolve ex_db_of_bytes no_open_fault
    ex_inline_named [] [] ex_world
  = (Ok ([], [lit "attachments/attachment.txt"]),
     store ex_resolve ex_db_of_bytes (lit "attachments/attachment.txt")
       (list_byte_of_string "notes") ex_world)
  /\ fst (ex_handle2 "inline" ex_world) = Ok ACCEPTED
  /\ List.map body (rows (emails (snd (ex_handle2 "inline" ex_world)))) = [[]]
  /\ files (snd (ex_handle2 "inline" ex_world))
     = {[ lit "/srv/mail/attachments/attachment.txt" := list_byte_of_string "notes" ]}.
Proof.
  split; [| vm_compute; repeat split].
  rewrite (proj1 (X13_disposition_is_substring_test python_decode ex_resolve
                    ex_db_of_bytes no_open_fault ex_inline_named
                    (lit "attachment.txt") [] [] ex_world
                    eq_refl eq_refl ltac:(discriminate))).
  - vm_compute. reflexivity.
  - exists (lit "inline; filename="), (lit ".txt"). reflexivity.
Defined.
